(** * Parent-side postMessage bridge of the Venyu embed widget

    A shallow embedding of [createMessagingBridge] (the message codec, the
    handshake, the router, the popup coordinator and the resize reactor)
    together with the properties its specification states about it.

    Conventions of the embedding:
    - a JavaScript value is a [JsValue]; an object is a finite map from
      property names to values, and a missing property reads as
      [JUndefined]; values are plain data, as the structured clone of a
      message event delivers them, so reading a property never throws;
    - a JavaScript number is a [JsNum]: NaN, the two infinities, or a finite
      rational (every finite double is one); comparisons with NaN are false;
    - a handler is a function from the bridge (closure variables plus the
      part of the DOM the bridge touches) to the new bridge and the list of
      effects it performed, in program order;
    - consumer callbacks are optional; a call through [?.] is recorded as an
      effect when the callback is present; callbacks are assumed to return
      normally and not to re-enter the bridge;
    - what the browser decides (request ids, the clock, the result of
      [window.open], timer ids) is read from an [Env] given to the handler;
    - the frame is a DOM element: an assignment to [iframe.style.height]
      takes effect when the text assigned is a height, a finite length that
      is not negative, and leaves the height as it was otherwise. *)

From Stdlib Require Import QArith Qround Ascii.
From stdpp Require Import gmap strings list pretty.

Local Open Scope string_scope.
Local Open Scope list_scope.

(** ** JavaScript values *)

Inductive JsNum := NaN | PosInf | NegInf | Fin (q : Q).

#[warnings="-register-all"]
Inductive JsValue :=
| JUndefined
| JNull
| JBool (b : bool)
| JNum (n : JsNum)
| JBigInt (z : Z)
| JStr (s : string)
| JObj (props : gmap string JsValue).

(** [o.k]: the value of an own property, [undefined] when absent. *)
Definition get (o : gmap string JsValue) (k : string) : JsValue :=
  default JUndefined (o !! k).

(** [a === b] on numbers. *)
Definition num_eqb (a b : JsNum) : bool :=
  match a, b with
  | Fin p, Fin q => Qeq_bool p q
  | PosInf, PosInf => true
  | NegInf, NegInf => true
  | _, _ => false
  end.

(** [a < b] on numbers. *)
Definition num_ltb (a b : JsNum) : bool :=
  match a, b with
  | NaN, _ | _, NaN => false
  | _, NegInf => false
  | NegInf, _ => true
  | PosInf, _ => false
  | Fin _, PosInf => true
  | Fin p, Fin q => negb (Qle_bool q p)
  end.

(** [a <= b] on numbers. *)
Definition num_leb (a b : JsNum) : bool :=
  match a, b with
  | NaN, _ | _, NaN => false
  | NegInf, _ => true
  | _, NegInf => false
  | _, PosInf => true
  | PosInf, Fin _ => false
  | Fin p, Fin q => Qle_bool p q
  end.

(** [Math.ceil]. *)
Definition Math_ceil (n : JsNum) : JsNum :=
  match n with
  | Fin q => Fin (inject_Z (Qceiling q))
  | _ => n
  end.

Definition zero : JsNum := Fin 0.

(** What the specification calls a positive number and a non-negative
    number: NaN is neither. *)
Definition positive_number (n : JsNum) : Prop :=
  match n with
  | Fin q => (0 < q)%Q
  | PosInf => True
  | _ => False
  end.

Definition nonneg_number (n : JsNum) : Prop :=
  match n with
  | Fin q => (0 <= q)%Q
  | PosInf => True
  | _ => False
  end.

(** ** Constants *)

Definition PROTOCOL_VERSION : JsNum := Fin 1.
Definition MESSAGE_PREFIX : string := "venyu:".

(** ** Messages *)

Record EmbedMessage := {
  msg_type : string;
  msg_version : JsNum;
  msg_requestId : string;
  msg_timestamp : JsNum;
  msg_nonce : string;
  msg_payload : gmap string JsValue;
}.

(** [s.length === 0] *)
Definition str_empty (s : string) : bool := Nat.eqb (String.length s) 0.

(** [validateIncomingMessage(data)]: [None] is the [null] it returns. *)
Definition validateIncomingMessage (data : JsValue) : option EmbedMessage :=
  match data with
  | JObj msg =>
    match get msg "type" with
    | JStr ty =>
      if negb (String.prefix MESSAGE_PREFIX ty) then None else
      match get msg "version" with
      | JNum v =>
        if negb (num_eqb v PROTOCOL_VERSION) then None else
        match get msg "requestId" with
        | JStr rid =>
          if str_empty rid then None else
          match get msg "nonce" with
          | JStr n =>
            if str_empty n then None else
            match get msg "timestamp" with
            | JNum ts =>
              if num_leb ts zero then None else
              match get msg "payload" with
              | JObj p =>
                Some {| msg_type := ty; msg_version := v; msg_requestId := rid;
                        msg_timestamp := ts; msg_nonce := n; msg_payload := p |}
              | _ => None
              end
            | _ => None
            end
          | _ => None
          end
        | _ => None
        end
      | _ => None
      end
    | _ => None
    end
  | _ => None
  end.

(** ** The bridge and its surroundings *)

Definition WindowRef := nat.
Definition TimerId := nat.

(** What the browser supplies during one handler run. *)
Record Env := {
  env_requestId : string;          (* generateRequestId() *)
  env_now : JsNum;                 (* Date.now() *)
  env_open : option WindowRef;     (* what window.open returns *)
  env_timer : TimerId;             (* what setInterval returns *)
  env_features : string;           (* getPopupFeatures() *)
}.

(** [buildMessage(type, payload, nonce)] *)
Definition buildMessage (env : Env) (type : string)
    (payload : gmap string JsValue) (nonce : string) : EmbedMessage :=
  {| msg_type := type; msg_version := PROTOCOL_VERSION;
     msg_requestId := env_requestId env; msg_timestamp := env_now env;
     msg_nonce := nonce; msg_payload := payload |}.

Record MessageEvent := {
  origin : string;
  source : option WindowRef;
  data : JsValue;
}.

(** The address of the auth popup, before serialisation. *)
Record PopupUrl := {
  url_base : string;
  url_parentOrigin : string;
  url_nonce : option string;
  url_embedSessionId : string;
}.

(** [iframe.style.height]: the value it had when the bridge was created, or
    the length of [n] pixels the bridge assigned. *)
Inductive CssHeight :=
| CssInitial (s : string)
| CssPx (n : JsNum).

Inductive Promise := Pending | Fulfilled | Rejected (reason : string).

Inductive Effect :=
| PostMessage (target : WindowRef) (m : EmbedMessage) (targetOrigin : string)
| OnReady
| OnError (message : string)
| OnBooked (bookingId status : string)
| OnAuthFallbackRequired (reason : string)
| ScrollIntoView
| WindowOpen (url : PopupUrl) (name features : string)
| WindowClose (w : WindowRef)
| SetInterval (id : TimerId) (w : WindowRef)
| ClearInterval (id : TimerId)
| RemoveListener
| Throws (error : string).

Record MessagingState := {
  nonce : option string;
  popup : option WindowRef;
  handshakeComplete : bool;
  destroyed : bool;
}.

Record Bridge := {
  state : MessagingState;
  popupPollIntervalId : option TimerId;
  readyPromise : Promise;
  (* the DOM around the bridge *)
  contentWindow : option WindowRef;          (* iframe.contentWindow *)
  styleHeight : CssHeight;                   (* iframe.style.height *)
  closedWindows : gset WindowRef;            (* windows whose .closed is true *)
  timers : list (TimerId * WindowRef);       (* live intervals, with the popup each polls *)
  listening : bool;                          (* 'message' listener registered *)
}.

Definition with_state (f : MessagingState → MessagingState) (b : Bridge) : Bridge :=
  {| state := f (state b); popupPollIntervalId := popupPollIntervalId b;
     readyPromise := readyPromise b; contentWindow := contentWindow b;
     styleHeight := styleHeight b; closedWindows := closedWindows b;
     timers := timers b; listening := listening b |}.

Definition set_nonce (n : option string) (s : MessagingState) : MessagingState :=
  {| nonce := n; popup := popup s; handshakeComplete := handshakeComplete s;
     destroyed := destroyed s |}.
Definition set_popup (p : option WindowRef) (s : MessagingState) : MessagingState :=
  {| nonce := nonce s; popup := p; handshakeComplete := handshakeComplete s;
     destroyed := destroyed s |}.
Definition set_handshakeComplete (h : bool) (s : MessagingState) : MessagingState :=
  {| nonce := nonce s; popup := popup s; handshakeComplete := h;
     destroyed := destroyed s |}.
Definition set_destroyed (d : bool) (s : MessagingState) : MessagingState :=
  {| nonce := nonce s; popup := popup s; handshakeComplete := handshakeComplete s;
     destroyed := d |}.

Definition set_pollId (i : option TimerId) (b : Bridge) : Bridge :=
  {| state := state b; popupPollIntervalId := i;
     readyPromise := readyPromise b; contentWindow := contentWindow b;
     styleHeight := styleHeight b; closedWindows := closedWindows b;
     timers := timers b; listening := listening b |}.
Definition set_readyPromise (p : Promise) (b : Bridge) : Bridge :=
  {| state := state b; popupPollIntervalId := popupPollIntervalId b;
     readyPromise := p; contentWindow := contentWindow b;
     styleHeight := styleHeight b; closedWindows := closedWindows b;
     timers := timers b; listening := listening b |}.
Definition set_contentWindow (w : option WindowRef) (b : Bridge) : Bridge :=
  {| state := state b; popupPollIntervalId := popupPollIntervalId b;
     readyPromise := readyPromise b; contentWindow := w;
     styleHeight := styleHeight b; closedWindows := closedWindows b;
     timers := timers b; listening := listening b |}.
Definition set_styleHeight (h : CssHeight) (b : Bridge) : Bridge :=
  {| state := state b; popupPollIntervalId := popupPollIntervalId b;
     readyPromise := readyPromise b; contentWindow := contentWindow b;
     styleHeight := h; closedWindows := closedWindows b;
     timers := timers b; listening := listening b |}.
Definition set_closedWindows (c : gset WindowRef) (b : Bridge) : Bridge :=
  {| state := state b; popupPollIntervalId := popupPollIntervalId b;
     readyPromise := readyPromise b; contentWindow := contentWindow b;
     styleHeight := styleHeight b; closedWindows := c;
     timers := timers b; listening := listening b |}.
Definition set_timers (t : list (TimerId * WindowRef)) (b : Bridge) : Bridge :=
  {| state := state b; popupPollIntervalId := popupPollIntervalId b;
     readyPromise := readyPromise b; contentWindow := contentWindow b;
     styleHeight := styleHeight b; closedWindows := closedWindows b;
     timers := t; listening := listening b |}.
Definition set_listening (l : bool) (b : Bridge) : Bridge :=
  {| state := state b; popupPollIntervalId := popupPollIntervalId b;
     readyPromise := readyPromise b; contentWindow := contentWindow b;
     styleHeight := styleHeight b; closedWindows := closedWindows b;
     timers := timers b; listening := l |}.

(** A handler: the bridge after the call and the effects of the call. *)
Definition Handler := Bridge → Bridge * list Effect.

Definition skip : Handler := fun b => (b, []).

(** [f; g] *)
Definition andThen (f g : Handler) : Handler := fun b =>
  let r1 := f b in
  let r2 := g r1.1 in
  (r2.1, r1.2 ++ r2.2).

Infix ">>" := andThen (at level 60, right associativity).

Definition perform (e : list Effect) : Handler := fun b => (b, e).
Definition update (f : Bridge → Bridge) : Handler := fun b => (f b, []).

(** [w.closed] *)
Definition closed (b : Bridge) (w : WindowRef) : bool :=
  bool_decide (w ∈ closedWindows b).

(** Settling a promise that is already settled does nothing. *)
Definition settle (p : Promise) : Handler :=
  update (fun b => match readyPromise b with
                   | Pending => set_readyPromise p b
                   | _ => b
                   end).
Definition resolveReady : Handler := settle Fulfilled.
Definition rejectReady (reason : string) : Handler := settle (Rejected reason).

Record VenyuEmbedCallbacks := {
  onReady : bool;
  onBooked : bool;
  onAuthFallbackRequired : bool;
  onError : bool;
}.

Record MessagingConfig := {
  playUrl : string;
  locale : string;
  theme : JsValue;
  callbacks : VenyuEmbedCallbacks;
  embedSessionId : string;
}.

(** [cb?.(...)] *)
Definition call (present : bool) (e : Effect) : Handler :=
  perform (if present then [e] else []).

(** [!s] for [s : string | null] *)
Definition falsy (s : option string) : bool :=
  match s with
  | None => true
  | Some n => str_empty n
  end.

Definition opt_eqb (a b : option WindowRef) : bool := bool_decide (a = b).

Definition ERR_NO_WINDOW : string := "Iframe contentWindow is not available".
Definition ERR_POPUP_BLOCKED : string := "Auth popup was blocked by the browser".
Definition ERR_DESTROYED : string := "Embed widget was destroyed before ready".

(** What a bridge is created with: the configuration, and the two pieces of
    the host page it reads. [URL_origin u] is [new URL(u).origin], [None]
    when the constructor throws; [windowOrigin] is [window.location.origin]. *)
Class Host := {
  URL_origin : string → option string;
  windowOrigin : string;
  config : MessagingConfig;
}.

Section Bridge.

Context {host : Host}.

(** [extractOrigin(url)] *)
Definition extractOrigin (url : string) : string :=
  match URL_origin url with
  | Some o => o
  | None => url
  end.

Definition expectedOrigin : string := extractOrigin (playUrl config).

(** [sendToIframe(type, payload)] *)
Definition sendToIframe (env : Env) (type : string)
    (payload : gmap string JsValue) : Handler := fun b =>
  if destroyed (state b) then (b, []) else
  if falsy (nonce (state b)) then (b, []) else
  match contentWindow b with
  | None => (b, [])
  | Some cw =>
    let message := buildMessage env type payload (default "" (nonce (state b))) in
    (b, [PostMessage cw message expectedOrigin])
  end.

(** [clearInterval(id)] *)
Definition clearInterval (id : TimerId) : Handler := fun b =>
  (set_timers (filter (fun t => t.1 ≠ id) (timers b)) b, [ClearInterval id]).

(** [clearPopupPoll()] *)
Definition clearPopupPoll : Handler := fun b =>
  match popupPollIntervalId b with
  | Some id => (clearInterval id >> update (set_pollId None)) b
  | None => (b, [])
  end.

(** [if (state.popup && !state.popup.closed) state.popup.close()] *)
Definition closeOpenPopup : Handler := fun b =>
  match popup (state b) with
  | Some w =>
    if closed b w then (b, [])
    else (set_closedWindows ({[w]} ∪ closedWindows b) b, [WindowClose w])
  | None => (b, [])
  end.

(** The callback given to [setInterval] by [openAuthPopup], for popup [w]. *)
Definition pollPopup (w : WindowRef) : Handler := fun b =>
  if closed b w then (clearPopupPoll >> update (with_state (set_popup None))) b
  else (b, []).

(** [openAuthPopup()] *)
Definition openAuthPopup (env : Env) : Handler := fun b =>
  if destroyed (state b) then (b, []) else
  (clearPopupPoll >> closeOpenPopup >> fun b =>
   match URL_origin (playUrl config +:+ "/embed/auth/popup") with
   | None => (b, [Throws "TypeError: Invalid URL"])
   | Some _ =>
     let popupUrl :=
       {| url_base := playUrl config +:+ "/embed/auth/popup";
          url_parentOrigin := windowOrigin;
          url_nonce := if falsy (nonce (state b)) then None else nonce (state b);
          url_embedSessionId := embedSessionId config |} in
     (perform [WindowOpen popupUrl "venyu-auth" (env_features env)] >>
      match env_open env with
      | None =>
        sendToIframe env "venyu:auth:popup-result"
          (<["resultToken" := JStr ""]> (<["error" := JStr "popup_blocked"]> ∅)) >>
        call (onError (callbacks config)) (OnError ERR_POPUP_BLOCKED)
      | Some w =>
        update (set_closedWindows (closedWindows b ∖ {[w]})) >>
        update (with_state (set_popup (Some w))) >>
        (fun b => (set_timers ((env_timer env, w) :: timers b) b,
                   [SetInterval (env_timer env) w])) >>
        update (set_pollId (Some (env_timer env)))
      end) b
   end) b.

(** [iframe.style.height = `${n}px`]. The frame is a DOM element, and the
    setter of its style declaration keeps the value it has when the text
    assigned is not a height: [NaNpx] and [Infinitypx] are no lengths, and a
    negative length is no height. The text of a finite number is a number
    of the style sheet language, also where it is printed with an
    exponent. *)
Definition assignHeight (n : JsNum) (b : Bridge) : Bridge :=
  match n with
  | Fin q => if Qle_bool 0 q then set_styleHeight (CssPx (Fin q)) b else b
  | _ => b
  end.

(** [handleResize(height)] *)
Definition handleResize (height : JsValue) : Handler := fun b =>
  if destroyed (state b) then (b, []) else
  match height with
  | JNum h =>
    if num_ltb h zero then (b, [])
    else (assignHeight (Math_ceil h) b, [])
  | _ => (b, [])
  end.

(** The [initMessage] that [handleReadyMessage] builds once [state.nonce]
    is [n]: the nonce goes into the payload and into the envelope. *)
Definition initMessage (env : Env) (n : string) : EmbedMessage :=
  buildMessage env "venyu:init"
    (<["nonce" := JStr n]>
     (<["locale" := JStr (locale config)]>
      (<["theme" := match theme config with
                    | JUndefined | JNull => JObj ∅
                    | t => t
                    end]> ∅)))
    n.

(** [handleReadyMessage(message)] *)
Definition handleReadyMessage (env : Env) (message : EmbedMessage) : Handler := fun b =>
  if handshakeComplete (state b) then (b, []) else
  (update (with_state (set_handshakeComplete true)) >>
   update (with_state (set_nonce (Some (msg_nonce message)))) >>
   fun b =>
   match contentWindow b with
   | None =>
     (call (onError (callbacks config)) (OnError ERR_NO_WINDOW) >>
      rejectReady ERR_NO_WINDOW) b
   | Some cw =>
     (perform [PostMessage cw (initMessage env (default "" (nonce (state b))))
                 expectedOrigin] >>
      call (onReady (callbacks config)) OnReady >>
      resolveReady) b
   end) b.

(** [handlePopupMessage(message)] *)
Definition handlePopupMessage (env : Env) (message : EmbedMessage) : Handler :=
  (match get (msg_payload message) "resultToken" with
   | JStr resultToken =>
     if str_empty resultToken then skip
     else sendToIframe env "venyu:auth:popup-result"
            (<["resultToken" := JStr resultToken]> ∅)
   | _ => skip
   end) >>
  clearPopupPoll >>
  closeOpenPopup >>
  update (with_state (set_popup None)).

(** The [switch (message.type)] of [handleMessage]. *)
Definition dispatch (env : Env) (message : EmbedMessage) : Handler :=
  let ty := msg_type message in
  if String.eqb ty "venyu:resize" then
    match get (msg_payload message) "height" with
    | JNum h => handleResize (JNum h)
    | _ => skip
    end
  else if String.eqb ty "venyu:booked" then
    match get (msg_payload message) "bookingId", get (msg_payload message) "status" with
    | JStr bookingId, JStr status =>
      call (onBooked (callbacks config)) (OnBooked bookingId status)
    | _, _ => skip
    end
  else if String.eqb ty "venyu:auth:open-popup" then openAuthPopup env
  else if String.eqb ty "venyu:auth:fallback-required" then
    match get (msg_payload message) "reason" with
    | JStr reason =>
      call (onAuthFallbackRequired (callbacks config)) (OnAuthFallbackRequired reason)
    | _ => skip
    end
  else if String.eqb ty "venyu:navigate" then perform [ScrollIntoView]
  else skip.

Definition isFromIframe (event : MessageEvent) (b : Bridge) : bool :=
  opt_eqb (source event) (contentWindow b).

Definition isFromPopup (event : MessageEvent) (b : Bridge) : bool :=
  match popup (state b) with
  | Some p => negb (closed b p) && opt_eqb (source event) (Some p)
  | None => false
  end.

(** [message.nonce !== state.nonce] *)
Definition nonce_differs (message : EmbedMessage) (b : Bridge) : bool :=
  match nonce (state b) with
  | Some n => negb (String.eqb (msg_nonce message) n)
  | None => true
  end.

(** [handleMessage(event)] *)
Definition handleMessage (env : Env) (event : MessageEvent) : Handler := fun b =>
  if destroyed (state b) then (b, []) else
  if negb (String.eqb (origin event) expectedOrigin) then (b, []) else
  if negb (isFromIframe event b) && negb (isFromPopup event b) then (b, []) else
  match validateIncomingMessage (data event) with
  | None => (b, [])
  | Some message =>
    if isFromPopup event b then
      if negb (String.eqb (msg_type message) "venyu:auth:popup-result") then (b, [])
      else if falsy (nonce (state b)) || nonce_differs message b then (b, [])
      else handlePopupMessage env message b
    else if String.eqb (msg_type message) "venyu:ready" then
      handleReadyMessage env message b
    else if negb (handshakeComplete (state b)) || nonce_differs message b then (b, [])
    else dispatch env message b
  end.

(** The argument of [sendConfigUpdate]. *)
Record ConfigUpdate := {
  upd_locale : option string;
  upd_theme : option JsValue;
}.

(** [sendConfigUpdate(update)] *)
Definition sendConfigUpdate (env : Env) (upd : ConfigUpdate) : Handler := fun b =>
  if destroyed (state b) then (b, []) else
  if negb (handshakeComplete (state b)) then (b, []) else
  let p0 : gmap string JsValue := ∅ in
  let p1 := match upd_locale upd with Some l => <["locale" := JStr l]> p0 | None => p0 end in
  let p2 := match upd_theme upd with Some t => <["theme" := t]> p1 | None => p1 end in
  sendToIframe env "venyu:config:update" p2 b.

(** [destroy()] *)
Definition destroy : Handler := fun b =>
  if destroyed (state b) then (b, []) else
  (update (with_state (set_destroyed true)) >>
   (fun b => (set_listening false b, [RemoveListener])) >>
   clearPopupPoll >>
   closeOpenPopup >>
   update (with_state (set_popup None)) >>
   rejectReady ERR_DESTROYED) b.

(** The bridge right after [createMessagingBridge] returned. *)
Definition createMessagingBridge (cw : option WindowRef) (h : CssHeight)
    (cl : gset WindowRef) : Bridge :=
  {| state := {| nonce := None; popup := None; handshakeComplete := false;
                 destroyed := false |};
     popupPollIntervalId := None;
     readyPromise := Pending;
     contentWindow := cw; styleHeight := h; closedWindows := cl;
     timers := []; listening := true |}.

(** Everything that can happen to a bridge: the browser delivers a message
    event or fires an interval, the consumer calls the public API, the user
    closes a window, the frame loses or gains its content window. *)
Inductive Action :=
| Deliver (env : Env) (event : MessageEvent)
| PollTick (id : TimerId)
| CallDestroy
| CallSendConfigUpdate (env : Env) (upd : ConfigUpdate)
| UserCloses (w : WindowRef)
| FrameWindow (cw : option WindowRef).

Definition step (a : Action) : Handler :=
  match a with
  | Deliver env event => fun b =>
      if listening b then handleMessage env event b else (b, [])
  | PollTick id => fun b =>
      match list_find (fun t => t.1 = id) (timers b) with
      | Some (_, (_, w)) => pollPopup w b
      | None => (b, [])
      end
  | CallDestroy => destroy
  | CallSendConfigUpdate env upd => sendConfigUpdate env upd
  | UserCloses w => update (fun b => set_closedWindows ({[w]} ∪ closedWindows b) b)
  | FrameWindow cw => update (set_contentWindow cw)
  end.

Fixpoint run (acts : list Action) : Handler :=
  match acts with
  | [] => skip
  | a :: rest => step a >> run rest
  end.

End Bridge.

(** ** Sample data used by the worked examples *)

Module Demo.

(** A stand-in for the browser's URL parser, enough for the examples:
    [https://play.venyu.ch...] parses and has that origin, nothing else
    parses. *)
Definition parse (u : string) : option string :=
  if String.prefix "https://play.venyu.ch" u then Some "https://play.venyu.ch"
  else None.

Definition host : Host :=
  {| URL_origin := parse;
     windowOrigin := "https://club.example";
     config :=
       {| playUrl := "https://play.venyu.ch"; locale := "de"; theme := JUndefined;
          callbacks := {| onReady := true; onBooked := true;
                          onAuthFallbackRequired := true; onError := true |};
          embedSessionId := "es_1" |} |}.

Definition env (rid : string) (opened : option WindowRef) : Env :=
  {| env_requestId := rid; env_now := Fin 1700000000000;
     env_open := opened; env_timer := 7; env_features := "width=480,height=640" |}.

(** A wire message with every envelope field present. *)
Definition wire (ty n : string) (ts : JsValue) (payload : JsValue) : JsValue :=
  JObj (<["type" := JStr ty]> (<["version" := JNum (Fin 1)]>
       (<["requestId" := JStr "req-1"]> (<["nonce" := JStr n]>
       (<["timestamp" := ts]> (<["payload" := payload]> ∅)))))).

Definition frameWindow : WindowRef := 1.
Definition popupWindow : WindowRef := 2.

Definition fromFrame (d : JsValue) : MessageEvent :=
  {| origin := "https://play.venyu.ch"; source := Some frameWindow; data := d |}.
Definition fromPopup (d : JsValue) : MessageEvent :=
  {| origin := "https://play.venyu.ch"; source := Some popupWindow; data := d |}.

Definition ready (n : string) : MessageEvent :=
  fromFrame (wire "venyu:ready" n (JNum (Fin 5)) (JObj ∅)).

Definition fresh : Bridge :=
  createMessagingBridge (Some frameWindow) (CssInitial "600px") ∅.

Definition handle := @handleMessage host.
Definition exec := @run host.

(** The bridge after the handshake with nonce ["abc"]. *)
Definition shaken : Bridge := (handle (env "r0" None) (ready "abc") fresh).1.

(** Requests the frame sends after the handshake. *)
Definition openPopup (n : string) : MessageEvent :=
  fromFrame (wire "venyu:auth:open-popup" n (JNum (Fin 6)) (JObj ∅)).

(** The bridge after a popup was then opened successfully. *)
Definition withPopup : Bridge :=
  (handle (env "r1" (Some popupWindow)) (openPopup "abc") shaken).1.

Definition resize (n : string) (h : JsValue) : MessageEvent :=
  fromFrame (wire "venyu:resize" n (JNum (Fin 6)) (JObj (<["height" := h]> ∅))).
Definition navigate (n : string) : MessageEvent :=
  fromFrame (wire "venyu:navigate" n (JNum (Fin 6)) (JObj ∅)).

(** The result the popup posts to its opener. *)
Definition popupResult (n token : string) : MessageEvent :=
  fromPopup (wire "venyu:auth:popup-result" n (JNum (Fin 8))
               (JObj (<["resultToken" := JStr token]> ∅))).

(** The validated form of [wire ty n (JNum ts) (JObj p)]. *)
Definition message (ty n : string) (ts : JsNum) (p : gmap string JsValue)
    : EmbedMessage :=
  {| msg_type := ty; msg_version := Fin 1; msg_requestId := "req-1";
     msg_timestamp := ts; msg_nonce := n; msg_payload := p |}.

(** A bridge created while the frame has no content window, and the ready
    signal of a sender that is gone as well. *)
Definition detached : Bridge :=
  createMessagingBridge None (CssInitial "600px") ∅.
Definition orphanReady (n : string) : MessageEvent :=
  {| origin := "https://play.venyu.ch"; source := None;
     data := wire "venyu:ready" n (JNum (Fin 5)) (JObj ∅) |}.

End Demo.

(** ** Vocabulary of the specification *)

(** [typeof v] *)
Definition typeof (v : JsValue) : string :=
  match v with
  | JUndefined => "undefined"
  | JNull => "object"
  | JBool _ => "boolean"
  | JNum _ => "number"
  | JBigInt _ => "bigint"
  | JStr _ => "string"
  | JObj _ => "object"
  end.

Definition field_types : list (string * string) :=
  [("type", "string"); ("version", "number"); ("requestId", "string");
   ("timestamp", "number"); ("nonce", "string"); ("payload", "object")].

Definition is_protocol_version (v : JsValue) : Prop :=
  ∃ q, v = JNum (Fin q) ∧ (q == 1)%Q.

(** Malformed data in the words of the specification: not an object, the
    wrong protocol version, a required field missing or of the wrong type,
    or a payload that is not an object. *)
Inductive Malformed : JsValue → Prop :=
| mal_not_object d :
    (∀ props, d ≠ JObj props) → Malformed d
| mal_version props :
    ¬ is_protocol_version (get props "version") → Malformed (JObj props)
| mal_missing props k ty :
    (k, ty) ∈ field_types → props !! k = None → Malformed (JObj props)
| mal_type props k ty :
    (k, ty) ∈ field_types → typeof (get props k) ≠ ty → Malformed (JObj props)
| mal_payload props :
    (∀ p, get props "payload" ≠ JObj p) → Malformed (JObj props).

(** The bridges that can exist: a freshly created one, driven by any
    actions. *)
Definition reachable `{Host} (b : Bridge) : Prop :=
  ∃ cw h cl acts, b = (run acts (createMessagingBridge cw h cl)).1.

(** The states of the handshake state machine. *)
Definition awaiting_ready (b : Bridge) : Prop :=
  handshakeComplete (state b) = false ∧ destroyed (state b) = false.

(** A bridge whose handshake completed with nonce [n]. *)
Definition sealed (n : string) (b : Bridge) : Prop :=
  handshakeComplete (state b) = true ∧ nonce (state b) = Some n.

(** The part of the bridge the handshake owns. *)
Definition session (b : Bridge) : option string * bool * bool * Promise * bool :=
  (nonce (state b), handshakeComplete (state b), destroyed (state b),
   readyPromise b, listening b).

(** What holds of every bridge that can exist. *)
Record inv (b : Bridge) : Prop := {
  inv_destroyed : destroyed (state b) = true → readyPromise b ≠ Pending;
  inv_awaiting : handshakeComplete (state b) = false →
                 nonce (state b) = None ∧ popup (state b) = None;
  inv_pending : handshakeComplete (state b) = false →
                destroyed (state b) = false → readyPromise b = Pending;
  inv_nonce : handshakeComplete (state b) = true →
              ∃ n, nonce (state b) = Some n ∧ n ≠ "";
  inv_listening : listening b = negb (destroyed (state b));
}.

(** A structurally valid ready signal. *)
Definition ready_signal (event : MessageEvent) : Prop :=
  ∃ m, validateIncomingMessage (data event) = Some m ∧ msg_type m = "venyu:ready".

(** The browser delivers the events of a list, one after the other. *)
Definition deliveries (l : list (Env * MessageEvent)) : list Action :=
  map (fun p => Deliver p.1 p.2) l.

(** The effects of [clearPopupPoll] and of closing the tracked popup. *)
Definition poll_effects (b : Bridge) : list Effect :=
  match popupPollIntervalId b with
  | Some id => [ClearInterval id]
  | None => []
  end.

Definition close_effects (b : Bridge) : list Effect :=
  match popup (state b) with
  | Some w => if closed b w then [] else [WindowClose w]
  | None => []
  end.

(** The payload of the synthetic result sent when the popup is blocked. *)
Definition blocked_payload : gmap string JsValue :=
  <["resultToken" := JStr ""]> (<["error" := JStr "popup_blocked"]> ∅).

(** The gate of step 6 of [handleMessage]. *)
Definition nonce_gate (message : EmbedMessage) (b : Bridge) : bool :=
  handshakeComplete (state b) && negb (nonce_differs message b).

(** The gate of the popup branch of [handleMessage]. *)
Definition popup_gate (message : EmbedMessage) (b : Bridge) : bool :=
  String.eqb (msg_type message) "venyu:auth:popup-result"
  && negb (falsy (nonce (state b))) && negb (nonce_differs message b).

Definition is_RemoveListener (e : Effect) : bool :=
  match e with RemoveListener => true | _ => false end.
Definition is_WindowClose (e : Effect) : bool :=
  match e with WindowClose _ => true | _ => false end.
Definition is_OnReady (e : Effect) : bool :=
  match e with OnReady => true | _ => false end.
Definition is_OnError (e : Effect) : bool :=
  match e with OnError _ => true | _ => false end.
Definition is_PostMessage (e : Effect) : bool :=
  match e with PostMessage _ _ _ => true | _ => false end.

(** How many effects of a kind a trace holds. *)
Definition count (p : Effect → bool) (trace : list Effect) : nat :=
  length (List.filter p trace).

(** ** Further vocabulary: timers, outgoing messages, popups *)

(** The live intervals are exactly the tracked poll, which polls the
    tracked popup; a destroyed bridge tracks neither. *)
Definition poll_owns_timers (b : Bridge) : Prop :=
  match popupPollIntervalId b with
  | Some id => ∃ w, timers b = [(id, w)] ∧ popup (state b) = Some w
  | None => timers b = []
  end.

Definition timer_inv (b : Bridge) : Prop :=
  poll_owns_timers b
  ∧ (destroyed (state b) = true →
     popupPollIntervalId b = None ∧ popup (state b) = None).

(** What the bridge itself owns, as opposed to the page around it. *)
Definition bridge_core (b : Bridge)
    : MessagingState * option TimerId * Promise * CssHeight
      * list (TimerId * WindowRef) * bool :=
  (state b, popupPollIntervalId b, readyPromise b, styleHeight b, timers b,
   listening b).

(** A posted message is well addressed for bridge [b]: it goes to the
    frame's window and to the expected origin, has the protocol version and
    a namespaced type, and carries the nonce of the completed handshake. *)
Definition good_post `{Host} (b : Bridge) (e : Effect) : Prop :=
  match e with
  | PostMessage w m o =>
    o = expectedOrigin
    ∧ contentWindow b = Some w
    ∧ msg_version m = PROTOCOL_VERSION
    ∧ String.prefix MESSAGE_PREFIX (msg_type m) = true
    ∧ sealed (msg_nonce m) b
    ∧ msg_nonce m ≠ ""
  | _ => True
  end.

(** The JavaScript object that a message is. *)
Definition toWire (m : EmbedMessage) : JsValue :=
  JObj (<["type" := JStr (msg_type m)]>
       (<["version" := JNum (msg_version m)]>
       (<["requestId" := JStr (msg_requestId m)]>
       (<["timestamp" := JNum (msg_timestamp m)]>
       (<["nonce" := JStr (msg_nonce m)]>
       (<["payload" := JObj (msg_payload m)]> ∅)))))).

(** The windows that [window.open] returned during a run. *)
Definition opened (trace : list Effect) : list WindowRef :=
  omap (fun e => match e with SetInterval _ w => Some w | _ => None end) trace.

(** The message types the type switch knows. *)
Definition known_types : list string :=
  ["venyu:resize"; "venyu:booked"; "venyu:auth:open-popup";
   "venyu:auth:fallback-required"; "venyu:navigate"].

(** What [handlePopupMessage] relays to the frame window [cw] under session
    nonce [n]: the result token, if it is a non-empty string. *)
Definition relay_effects `{Host} (env : Env) (m : EmbedMessage)
    (cw : WindowRef) (n : string) : list Effect :=
  match get (msg_payload m) "resultToken" with
  | JStr t =>
    if str_empty t then []
    else [PostMessage cw
            (buildMessage env "venyu:auth:popup-result"
               (<["resultToken" := JStr t]> ∅) n)
            expectedOrigin]
  | _ => []
  end.

(** The address [openAuthPopup] opens, for a bridge in state [b]. *)
Definition popupUrl `{Host} (b : Bridge) : PopupUrl :=
  {| url_base := playUrl config +:+ "/embed/auth/popup";
     url_parentOrigin := windowOrigin;
     url_nonce := if falsy (nonce (state b)) then None else nonce (state b);
     url_embedSessionId := embedSessionId config |}.

(** Window [w] is the tracked popup or is closed. *)
Definition tracked_or_closed (b : Bridge) (w : WindowRef) : Prop :=
  popup (state b) = Some w ∨ closed b w = true.

(** ** Request identifiers *)

(** One hexadecimal digit of [Number.prototype.toString(16)]. *)
Definition hexDigit (d : Z) : ascii :=
  match d with
  | 0 => "0" | 1 => "1" | 2 => "2" | 3 => "3" | 4 => "4" | 5 => "5"
  | 6 => "6" | 7 => "7" | 8 => "8" | 9 => "9" | 10 => "a" | 11 => "b"
  | 12 => "c" | 13 => "d" | 14 => "e" | _ => "f"
  end%Z%char.

(** [n.toString(16)] for a non-negative integer [n]; the fuel is the number
    of digits. *)
Fixpoint toString16_digits (fuel : nat) (n : Z) (acc : string) : string :=
  match fuel with
  | O => acc
  | S fuel' =>
    let acc' := String (hexDigit (n mod 16)) acc in
    if (n <? 16)%Z then acc' else toString16_digits fuel' (n / 16) acc'
  end.

Definition toString16 (n : Z) : string :=
  toString16_digits (S (Z.to_nat (Z.log2 n))) n "".

(** [s.padStart(len, c)] for a one-character filler. *)
Definition padStart (len : nat) (c : ascii) (s : string) : string :=
  String.string_of_list_ascii (replicate (len - String.length s) c) +:+ s.

(** [s.slice(a, b)] for [0 <= a <= b]. *)
Definition slice (a b : nat) (s : string) : string :=
  String.substring a (b - a) s.

(** [parts.join(sep)] *)
Definition join (sep : string) (parts : list string) : string :=
  match parts with
  | [] => ""
  | p :: rest => p +:+ String.concat "" (map (fun q => sep +:+ q) rest)
  end.

(** Storing into a [Uint8Array] keeps the low eight bits. *)
Definition ToUint8 (v : Z) : Z := (v mod 256)%Z.

(** The two assignments that set the version and variant bits. *)
Definition stampVersion (bytes : list Z) : list Z :=
  let bytes := <[6%nat := ToUint8 (Z.lor (Z.land (default 0%Z (bytes !! 6%nat)) 0x0f) 0x40)]> bytes in
  <[8%nat := ToUint8 (Z.lor (Z.land (default 0%Z (bytes !! 8%nat)) 0x3f) 0x80)]> bytes.

(** [b.toString(16).padStart(2, '0')] *)
Definition hexByte (b : Z) : string := padStart 2 "0" (toString16 b).

(** The fallback of [generateRequestId], from the sixteen bytes that
    [crypto.getRandomValues] wrote. *)
Definition uuidFromBytes (random : list Z) : string :=
  let bytes := stampVersion random in
  let hex := join "" (map hexByte bytes) in
  join "-" [slice 0 8 hex; slice 8 12 hex; slice 12 16 hex; slice 16 20 hex;
            slice 20 32 hex].

(** The [crypto] of a browser that has [getRandomValues]: [randomUUID]
    when the browser has that too, and the bytes [getRandomValues] writes. *)
Record Crypto := {
  randomUUID : option string;
  getRandomValues : list Z;
}.

(** [generateRequestId()] *)
Definition generateRequestId (crypto : Crypto) : string :=
  match randomUUID crypto with
  | Some uuid => uuid
  | None => uuidFromBytes (getRandomValues crypto)
  end.

(** The content of a [Uint8Array] of sixteen elements. *)
Definition sixteen_bytes (bytes : list Z) : Prop :=
  List.length bytes = 16%nat ∧ Forall (fun b => (0 ≤ b < 256)%Z) bytes.

Definition is_hex (c : ascii) : bool :=
  bool_decide (c ∈ String.list_ascii_of_string "0123456789abcdef").

(** The shape of a version 4 UUID: 36 characters, hyphens at 8, 13, 18 and
    23, the version digit 4 at 14, a variant digit 8, 9, a or b at 19, and
    lower-case hexadecimal digits elsewhere. *)
Definition uuid_v4_char (i : nat) (c : ascii) : bool :=
  if bool_decide (i ∈ [8; 13; 18; 23]%nat) then bool_decide (c = "-"%char)
  else if bool_decide (i = 14%nat) then bool_decide (c = "4"%char)
  else if bool_decide (i = 19%nat) then bool_decide (c ∈ String.list_ascii_of_string "89ab")
  else is_hex c.

Definition is_uuid_v4 (s : string) : bool :=
  Nat.eqb (String.length s) 36
  && forallb (fun p : nat * ascii => uuid_v4_char p.1 p.2)
       (imap (fun i c => (i, c)) (String.list_ascii_of_string s)).

(** The value of a hexadecimal digit (the inverse of [hexDigit]). *)
Definition unhexDigit (c : ascii) : Z :=
  match find (fun d => bool_decide (hexDigit d = c)) (seqZ 0 16) with
  | Some d => d
  | None => 0%Z
  end.

(** ** The popup's place on the screen *)

Definition POPUP_WIDTH : Z := 480.
Definition POPUP_HEIGHT : Z := 640.

(** The part of [window] that [getPopupFeatures] reads; the four are
    integers (WebIDL [long]). *)
Record WindowMetrics := {
  screenX : Z;
  screenY : Z;
  outerWidth : Z;
  outerHeight : Z;
}.

(** [Math.round]: to the nearest integer, halves upwards. *)
Definition Math_round (q : Q) : Z := Qfloor (q + (1 # 2)).

(** The [left] and [top] of [getPopupFeatures]. *)
Definition popupLeft (win : WindowMetrics) : Z :=
  Z.max 0 (Math_round (inject_Z (screenX win)
                       + (inject_Z (outerWidth win) - inject_Z POPUP_WIDTH) / 2)).

Definition popupTop (win : WindowMetrics) : Z :=
  Z.max 0 (Math_round (inject_Z (screenY win)
                       + (inject_Z (outerHeight win) - inject_Z POPUP_HEIGHT) / 2)).

(** [getPopupFeatures()] *)
Definition getPopupFeatures (win : WindowMetrics) : string :=
  join ","
    ["width=" +:+ pretty POPUP_WIDTH;
     "height=" +:+ pretty POPUP_HEIGHT;
     "left=" +:+ pretty (popupLeft win);
     "top=" +:+ pretty (popupTop win);
     "menubar=no"; "toolbar=no"; "location=yes"; "status=no";
     "resizable=yes"; "scrollbars=yes"].
(** ** Configuration and session start-up (the entry point) *)

Definition DEFAULT_API_URL : string := "https://api.venyu.ch".
Definition DEFAULT_PLAY_URL : string := "https://play.venyu.ch".
Definition DEFAULT_LOCALE : string := "de".

(** What a [throw] carries: an [Error] object of some class with its
    message, or any other value. A [DOMException] is an [Error] too. *)
Inductive ErrorKind :=
| KError
| KTypeError
| KSyntaxError
| KDOMException (name : string).

Inductive Thrown :=
| ThrownError (kind : ErrorKind) (message : string)
| ThrownValue (v : JsValue).

(** JavaScript truthiness. *)
Definition truthy (v : JsValue) : bool :=
  match v with
  | JUndefined | JNull => false
  | JBool b => b
  | JNum NaN => false
  | JNum n => negb (num_eqb n zero)
  | JBigInt z => negb (Z.eqb z 0)
  | JStr s => negb (str_empty s)
  | JObj _ => true
  end.

(** [v && typeof v === 'string']: the string, when [v] is a non-empty one. *)
Definition nonEmptyString (v : JsValue) : option string :=
  match v with
  | JStr s => if str_empty s then None else Some s
  | _ => None
  end.

(** [s.replace(/\/+$/, '')]: [s] without the slashes at its end. *)
Fixpoint stripTrailingSlashes (s : string) : string :=
  match s with
  | EmptyString => EmptyString
  | String c rest =>
    match stripTrailingSlashes rest with
    | EmptyString => if Ascii.eqb c "/" then EmptyString else String c EmptyString
    | rest' => String c rest'
    end
  end.

Definition Element := nat.

(** [config.container]: a DOM element or any other value. *)
Inductive Container :=
| ContainerElement (e : Element)
| ContainerValue (v : JsValue).

Record VenyuEmbedConfig := {
  cfg_container : Container;
  cfg_publicKey : JsValue;
  cfg_orgSlug : JsValue;
  cfg_facilitySlug : JsValue;
  cfg_courtSlug : JsValue;
  cfg_mode : JsValue;
  cfg_locale : JsValue;
  cfg_theme : JsValue;
  cfg_apiUrl : JsValue;
  cfg_playUrl : JsValue;
}.

(** The object [validateConfig] returns. *)
Record ValidatedConfig := {
  v_container : Element;
  v_publicKey : string;
  v_orgSlug : string;
  v_facilitySlug : string;
  v_courtSlug : option string;
  v_mode : string;
  v_locale : string;
  v_theme : JsValue;
  v_apiUrl : string;
  v_playUrl : string;
}.

(** What [document.querySelector] answers. *)
Inductive QueryResult :=
| QueryElement (e : Element)
| QueryNull
| QueryThrows (t : Thrown).

(** The page and the engine around the entry point: [document.querySelector],
    the text an engine puts into the [TypeError] of a failed property access
    or call, and [String(v)]. *)
Class Page := {
  querySelector : string → QueryResult;
  typeErrorMessage : string;
  String_ : JsValue → string;
}.

Definition ERR_CONTAINER_INVALID : string :=
  "[VenyuEmbed] Invalid container: must be a CSS selector string or HTMLElement.".
Definition ERR_PUBLIC_KEY : string :=
  "[VenyuEmbed] publicKey is required and must be a non-empty string.".
Definition ERR_ORG_SLUG : string :=
  "[VenyuEmbed] orgSlug is required and must be a non-empty string.".
Definition ERR_FACILITY_SLUG : string :=
  "[VenyuEmbed] facilitySlug is required and must be a non-empty string.".
Definition ERR_TIMED_OUT : string :=
  "[VenyuEmbed] Session initialization timed out. Check your network connection and API URL.".
Definition ERR_NO_TOKEN : string :=
  "[VenyuEmbed] Invalid API response: missing or empty embedToken.".

(** The double quote, as a string. *)
Definition dquote : string := String (Ascii.ascii_of_nat 34) EmptyString.

Definition containerNotFound (selector : string) : string :=
  "[VenyuEmbed] Container element not found: " +:+ dquote +:+ selector
  +:+ dquote +:+ ". "
  +:+ "Ensure the element exists in the DOM before calling init().".

Section EntryPoint.

Context {page : Page}.

(** [(url ?? fallback).replace(/\/+$/, '')] *)
Definition normalizeUrl (url : JsValue) (fallback : string) : Thrown + string :=
  match url with
  | JUndefined | JNull => inr (stripTrailingSlashes fallback)
  | JStr s => inr (stripTrailingSlashes s)
  | _ => inl (ThrownError KTypeError typeErrorMessage)
  end.

(** The container lookup at the start of [validateConfig]. *)
Definition resolveContainer (c : Container) : Thrown + Element :=
  match c with
  | ContainerValue (JStr selector) =>
    match querySelector selector with
    | QueryElement e => inr e
    | QueryNull => inl (ThrownError KError (containerNotFound selector))
    | QueryThrows t => inl t
    end
  | ContainerElement e => inr e
  | ContainerValue _ => inl (ThrownError KError ERR_CONTAINER_INVALID)
  end.

(** [validateConfig(config)]: the normalized configuration, or what it
    throws. *)
Definition validateConfig (config : VenyuEmbedConfig) : Thrown + ValidatedConfig :=
  match resolveContainer (cfg_container config) with
  | inl t => inl t
  | inr container =>
    match nonEmptyString (cfg_publicKey config) with
    | None => inl (ThrownError KError ERR_PUBLIC_KEY)
    | Some publicKey =>
      match nonEmptyString (cfg_orgSlug config) with
      | None => inl (ThrownError KError ERR_ORG_SLUG)
      | Some orgSlug =>
        match nonEmptyString (cfg_facilitySlug config) with
        | None => inl (ThrownError KError ERR_FACILITY_SLUG)
        | Some facilitySlug =>
          let courtSlug := nonEmptyString (cfg_courtSlug config) in
          let mode :=
            match cfg_mode config with
            | JStr m => if String.eqb m "full" || String.eqb m "calendar"
                        then m else "full"
            | _ => "full"
            end in
          let locale :=
            default DEFAULT_LOCALE (nonEmptyString (cfg_locale config)) in
          let theme :=
            match cfg_theme config with
            | JUndefined | JNull => JObj ∅
            | t => t
            end in
          match normalizeUrl (cfg_apiUrl config) DEFAULT_API_URL with
          | inl t => inl t
          | inr apiUrl =>
            match normalizeUrl (cfg_playUrl config) DEFAULT_PLAY_URL with
            | inl t => inl t
            | inr playUrl =>
              inr {| v_container := container; v_publicKey := publicKey;
                     v_orgSlug := orgSlug; v_facilitySlug := facilitySlug;
                     v_courtSlug := courtSlug; v_mode := mode;
                     v_locale := locale; v_theme := theme;
                     v_apiUrl := apiUrl; v_playUrl := playUrl |}
            end
          end
        end
      end
    end
  end.

(** [v.k] for one of the keys read here (data, error, message,
    embedToken): [undefined] on a primitive, a [TypeError] on [null] and
    [undefined]. *)
Definition member (v : JsValue) (k : string) : Thrown + JsValue :=
  match v with
  | JObj o => inr (get o k)
  | JUndefined | JNull => inl (ThrownError KTypeError typeErrorMessage)
  | _ => inr JUndefined
  end.

(** [v?.message] *)
Definition optMessage (v : JsValue) : JsValue :=
  match v with
  | JObj o => get o "message"
  | _ => JUndefined
  end.

(** [a ?? b] *)
Definition nullish (a b : JsValue) : JsValue :=
  match a with
  | JUndefined | JNull => b
  | _ => a
  end.

(** The text of a value inside a template literal. *)
Definition templateText (v : JsValue) : string :=
  match v with
  | JStr s => s
  | _ => String_ v
  end.

(** What [response.json()] settles with, and the response itself. *)
Record Response := {
  resp_ok : bool;
  resp_status : Z;
  resp_statusText : string;
  resp_json : Thrown + JsValue;
}.

Inductive FetchResult :=
| FetchRejected (t : Thrown)
| FetchResolved (r : Response).

(** The message for a response that is not ok: the body's
    [data.message ?? error.message ?? message] when the body is JSON and
    that is truthy, the status line otherwise. *)
Definition errorMessageOf (r : Response) : string :=
  let fallback :=
    "API error: " +:+ pretty (resp_status r) +:+ " " +:+ resp_statusText r in
  match resp_json r with
  | inl _ => fallback
  | inr errorBody =>
    match member errorBody "data", member errorBody "error", member errorBody "message" with
    | inr d, inr e, inr m =>
      let extracted := nullish (nullish (optMessage d) (optMessage e)) m in
      if truthy extracted then templateText extracted else fallback
    | _, _, _ => fallback
    end
  end.

(** The [try] block of [initEmbedSession]. *)
Definition initEmbedSession_try (outcome : FetchResult) : Thrown + JsValue :=
  match outcome with
  | FetchRejected t => inl t
  | FetchResolved r =>
    if negb (resp_ok r)
    then inl (ThrownError KError ("[VenyuEmbed] " +:+ errorMessageOf r))
    else
      match resp_json r with
      | inl t => inl t
      | inr data =>
        match member data "embedToken" with
        | inl t => inl t
        | inr token =>
          match nonEmptyString token with
          | Some _ => inr data
          | None => inl (ThrownError KError ERR_NO_TOKEN)
          end
        end
      end
  end.

(** [error instanceof DOMException && error.name === 'AbortError'] *)
Definition isAbortError (error : Thrown) : bool :=
  match error with
  | ThrownError (KDOMException name) _ => String.eqb name "AbortError"
  | _ => false
  end.

(** The [catch] block of [initEmbedSession]. *)
Definition initEmbedSession_catch (error : Thrown) : Thrown :=
  if isAbortError error then ThrownError KError ERR_TIMED_OUT
  else
    match error with
    | ThrownError _ message =>
      if String.prefix "[VenyuEmbed]" message then error
      else ThrownError KError
             ("[VenyuEmbed] Failed to initialize embed session: " +:+ message)
    | ThrownValue v =>
      ThrownError KError
        ("[VenyuEmbed] Failed to initialize embed session: " +:+ String_ v)
    end.

(** [initEmbedSession(apiUrl, publicKey)], given how the [fetch] it starts
    ends; an abort by the timeout ends it with the [AbortError]
    [DOMException]. *)
Definition initEmbedSession (outcome : FetchResult) : Thrown + JsValue :=
  match initEmbedSession_try outcome with
  | inl error => inl (initEmbedSession_catch error)
  | inr data => inr data
  end.

End EntryPoint.

(** A string ends with a slash. *)
Fixpoint endsWithSlash (s : string) : bool :=
  match s with
  | EmptyString => false
  | String c EmptyString => Ascii.eqb c "/"
  | String _ rest => endsWithSlash rest
  end.


(** ** More sample data *)

Module Samples.

(** A window that is neither the frame's nor a popup's. *)
Definition stranger : MessageEvent :=
  {| origin := "https://play.venyu.ch"; source := Some 9%nat;
     data := Demo.wire "venyu:navigate" "abc" (JNum (Fin 6)) (JObj ∅) |}.

Definition bookedPayload : gmap string JsValue :=
  <["bookingId" := JStr "b1"]> (<["status" := JStr "confirmed"]> ∅).

Definition booked (n : string) : MessageEvent :=
  Demo.fromFrame (Demo.wire "venyu:booked" n (JNum (Fin 6)) (JObj bookedPayload)).

Definition future (n : string) : MessageEvent :=
  Demo.fromFrame (Demo.wire "venyu:future:thing" n (JNum (Fin 6)) (JObj ∅)).

Definition resizePayload (h : JsValue) : gmap string JsValue := <["height" := h]> ∅.

Definition tokenPayload : gmap string JsValue := <["resultToken" := JStr "tok_1"]> ∅.

(** The bridge of [Demo.withPopup] after [destroy]. *)
Definition dead : Bridge := (destroy Demo.withPopup).1.

Definition toEnglish : ConfigUpdate :=
  {| upd_locale := Some "en"; upd_theme := None |}.

Definition handshake : list Action :=
  [Deliver (Demo.env "r0" None) (Demo.ready "abc")].

Definition handshakeThenPopup : list Action :=
  handshake
  ++ [Deliver (Demo.env "r1" (Some Demo.popupWindow)) (Demo.openPopup "abc")].

(** Sixteen random bytes, and a browser without [crypto.randomUUID]. *)
Definition bytes : list Z :=
  [18; 52; 86; 120; 154; 188; 222; 240; 1; 35; 69; 103; 137; 171; 205; 239]%Z.

Definition oldBrowser : Crypto :=
  {| randomUUID := None; getRandomValues := bytes |}.

(** The same bytes but for the bits that the version and the variant
    overwrite. *)
Definition bytes' : list Z :=
  [18; 52; 86; 120; 154; 188; 14; 240; 193; 35; 69; 103; 137; 171; 205; 239]%Z.

(** A page with one container element. *)
Definition page : Page :=
  {| querySelector := fun selector =>
       if String.eqb selector "#venyu-booking" then QueryElement 1%nat else QueryNull;
     typeErrorMessage := "x is not a function";
     String_ := fun _ => "[object Object]" |}.

Definition embedConfig : VenyuEmbedConfig :=
  {| cfg_container := ContainerValue (JStr "#venyu-booking");
     cfg_publicKey := JStr "pk_embed_abc123";
     cfg_orgSlug := JStr "tennis-club-zurich";
     cfg_facilitySlug := JStr "main-courts";
     cfg_courtSlug := JUndefined;
     cfg_mode := JStr "compact";
     cfg_locale := JUndefined;
     cfg_theme := JUndefined;
     cfg_apiUrl := JUndefined;
     cfg_playUrl := JStr "https://play.venyu.ch//" |}.

Definition validated : ValidatedConfig :=
  {| v_container := 1%nat; v_publicKey := "pk_embed_abc123";
     v_orgSlug := "tennis-club-zurich"; v_facilitySlug := "main-courts";
     v_courtSlug := None; v_mode := "full"; v_locale := "de";
     v_theme := JObj ∅; v_apiUrl := "https://api.venyu.ch";
     v_playUrl := "https://play.venyu.ch" |}.

(** The same configuration without an organisation slug. *)
Definition noOrgSlug : VenyuEmbedConfig :=
  {| cfg_container := cfg_container embedConfig;
     cfg_publicKey := cfg_publicKey embedConfig;
     cfg_orgSlug := JStr "";
     cfg_facilitySlug := JNum (Fin 3);
     cfg_courtSlug := JUndefined; cfg_mode := JUndefined;
     cfg_locale := JUndefined; cfg_theme := JUndefined;
     cfg_apiUrl := JUndefined; cfg_playUrl := JUndefined |}.


Definition offline : FetchResult :=
  FetchRejected (ThrownError KTypeError "Failed to fetch").

End Samples.

(** ** Further vocabulary: the readiness promise and the handshake effects *)

(** How the readiness promise relates to the session on a bridge that can
    exist. *)
Definition promise_inv (b : Bridge) : Prop :=
  match readyPromise b with
  | Pending =>
    handshakeComplete (state b) = false ∧ destroyed (state b) = false
  | Fulfilled => handshakeComplete (state b) = true
  | Rejected reason =>
    (reason = ERR_NO_WINDOW ∧ handshakeComplete (state b) = true)
    ∨ (reason = ERR_DESTROYED ∧ destroyed (state b) = true)
  end.

(** The effects of a completed handshake: the init message and onReady. *)
Definition is_init (e : Effect) : bool :=
  match e with
  | PostMessage _ m _ => String.eqb (msg_type m) "venyu:init"
  | _ => false
  end.

Definition handshake_effects (trace : list Effect) : nat :=
  count is_init trace + count is_OnReady trace.

(** ** Further vocabulary: the type switch and the frame's height *)

(** What the type switch of [handleMessage] can call, with what it passes:
    the resize reactor, the booking callback, the popup request, the
    fallback callback and the navigation reactor. *)
Inductive Reactor :=
| Resize (height : JsNum)
| Booked (bookingId status : string)
| OpenPopup
| FallbackRequired (reason : string)
| Navigate.

(** The call the switch makes for a message: that of the case of its type,
    when the payload passes the [typeof] test of the case; none in the
    default case and when the test fails. *)
Definition reactor_of (m : EmbedMessage) : option Reactor :=
  let ty := msg_type m in
  if String.eqb ty "venyu:resize" then
    match get (msg_payload m) "height" with
    | JNum h => Some (Resize h)
    | _ => None
    end
  else if String.eqb ty "venyu:booked" then
    match get (msg_payload m) "bookingId", get (msg_payload m) "status" with
    | JStr bookingId, JStr status => Some (Booked bookingId status)
    | _, _ => None
    end
  else if String.eqb ty "venyu:auth:open-popup" then Some OpenPopup
  else if String.eqb ty "venyu:auth:fallback-required" then
    match get (msg_payload m) "reason" with
    | JStr reason => Some (FallbackRequired reason)
    | _ => None
    end
  else if String.eqb ty "venyu:navigate" then Some Navigate
  else None.

(** The call itself. *)
Definition invoke `{Host} (env : Env) (r : Reactor) : Handler :=
  match r with
  | Resize h => handleResize (JNum h)
  | Booked bookingId status =>
    call (onBooked (callbacks config)) (OnBooked bookingId status)
  | OpenPopup => openAuthPopup env
  | FallbackRequired reason =>
    call (onAuthFallbackRequired (callbacks config)) (OnAuthFallbackRequired reason)
  | Navigate => perform [ScrollIntoView]
  end.

(** What steps 6 and 7 of [handleMessage] call for a message of the frame
    that is not the ready signal: nothing when step 6 drops the message. *)
Definition routed (m : EmbedMessage) (b : Bridge) : option Reactor :=
  if nonce_gate m b then reactor_of m else None.

(** The payload has what the case of the message's type reads, with the
    type the case tests for. *)
Definition payload_fits (m : EmbedMessage) : Prop :=
  (msg_type m = "venyu:resize" → typeof (get (msg_payload m) "height") = "number")
  ∧ (msg_type m = "venyu:booked" →
     typeof (get (msg_payload m) "bookingId") = "string"
     ∧ typeof (get (msg_payload m) "status") = "string")
  ∧ (msg_type m = "venyu:auth:fallback-required" →
     typeof (get (msg_payload m) "reason") = "string").

(** The specification's sentence about frame messages, at one message and
    one bridge: a handler is called exactly when the handshake is complete
    and the nonce is the session nonce. *)
Definition dispatched_iff_gate (m : EmbedMessage) (b : Bridge) : Prop :=
  is_Some (routed m b) ↔ sealed (msg_nonce m) b.

(** A height the frame can take: a finite number that is not negative. *)
Definition finite_nonneg (v : JsValue) : Prop :=
  ∃ q, v = JNum (Fin q) ∧ (0 <= q)%Q.

(** The specification's sentence about the resize reactor, at one value and
    one bridge: the height stays when the bridge is destroyed or the value
    is not a non-negative number, and is the ceiling of the value
    otherwise. *)
Definition resize_as_specified (height : JsValue) (b : Bridge) : Prop :=
  let b' := (handleResize height b).1 in
  (destroyed (state b) = true ∨ (∀ h, height = JNum h → ¬ nonneg_number h) →
   styleHeight b' = styleHeight b)
  ∧ (destroyed (state b) = false →
     ∀ h, height = JNum h → nonneg_number h →
          styleHeight b' = CssPx (Math_ceil h)).

(** ** Numbers *)

Lemma ceil_nonneg q : (0 <= q)%Q → Qle_bool 0 (inject_Z (Qceiling q)) = true.
Proof.
  intros Hq. apply Qle_bool_iff.
  eapply Qle_trans; [exact Hq|apply Qle_ceiling].
Qed.

Lemma num_leb_zero_false n :
  num_leb n zero = false ↔ positive_number n ∨ n = NaN.
Proof.
  destruct n as [| | |q]; simpl; try (intuition (auto; discriminate)).
  split.
  - intros H. left. apply Qnot_le_lt. intros Hle.
    apply Qle_bool_iff in Hle. congruence.
  - intros [H|H]; [|discriminate].
    destruct (Qle_bool q 0) eqn:E; [|reflexivity].
    apply Qle_bool_iff in E. exfalso. exact (Qlt_not_le _ _ H E).
Qed.

Lemma num_ltb_zero_false n :
  num_ltb n zero = false ↔ nonneg_number n ∨ n = NaN.
Proof.
  destruct n as [| | |q]; simpl; try (intuition (auto; discriminate)).
  rewrite negb_false_iff, Qle_bool_iff. intuition discriminate.
Qed.

Lemma num_eqb_version v :
  num_eqb v PROTOCOL_VERSION = true ↔ ∃ q, v = Fin q ∧ (q == 1)%Q.
Proof.
  destruct v as [| | |q]; simpl; split; try discriminate;
    try (intros (q' & ? & _); discriminate).
  - intros H. exists q. split; [reflexivity|]. by apply Qeq_bool_iff.
  - intros (q' & [= <-] & H). by apply Qeq_bool_iff.
Qed.

Lemma str_empty_false s : str_empty s = false ↔ s ≠ "".
Proof. unfold str_empty. destruct s; simpl; split; congruence. Qed.

(** ** The codec *)

(** What [validateIncomingMessage] accepts, read off the code: exactly the
    objects that pass each of its guards. *)
Lemma validateIncomingMessage_Some data m :
  validateIncomingMessage data = Some m ↔
  ∃ props, data = JObj props
    ∧ get props "type" = JStr (msg_type m)
    ∧ String.prefix MESSAGE_PREFIX (msg_type m) = true
    ∧ get props "version" = JNum (msg_version m)
    ∧ num_eqb (msg_version m) PROTOCOL_VERSION = true
    ∧ get props "requestId" = JStr (msg_requestId m)
    ∧ msg_requestId m ≠ ""
    ∧ get props "nonce" = JStr (msg_nonce m)
    ∧ msg_nonce m ≠ ""
    ∧ get props "timestamp" = JNum (msg_timestamp m)
    ∧ num_leb (msg_timestamp m) zero = false
    ∧ get props "payload" = JObj (msg_payload m).
Proof.
  split.
  - unfold validateIncomingMessage. intros H.
    repeat case_match; try discriminate. simplify_eq/=.
    eexists; repeat split; eauto;
      try (by apply negb_false_iff); by apply str_empty_false.
  - intros (props & -> & Ht & Hp & Hv & Hve & Hr & Hre & Hn & Hne & Hts & Htp & Hpl).
    unfold validateIncomingMessage.
    rewrite Ht, Hp, Hv, Hve, Hr, Hn, Hts, Htp, Hpl. simpl.
    apply str_empty_false in Hre, Hne. rewrite Hre, Hne.
    by destruct m.
Qed.

(** Away from NaN the timestamp guard is "the timestamp is positive". *)
Lemma validateIncomingMessage_timestamp data m :
  validateIncomingMessage data = Some m →
  positive_number (msg_timestamp m) ∨ msg_timestamp m = NaN.
Proof.
  intros (? & ? & H)%validateIncomingMessage_Some.
  apply num_leb_zero_false. tauto.
Qed.

Lemma validateIncomingMessage_nonce data m :
  validateIncomingMessage data = Some m → msg_nonce m ≠ "".
Proof. intros (? & ? & H)%validateIncomingMessage_Some. tauto. Qed.

(** C5 (the code departs from the claim). Structural validation returns the
    message for an object that is perfect except that its timestamp is NaN:
    the guard [msg.timestamp <= 0] is false for NaN, although NaN is not a
    positive number. *)
Theorem validateIncomingMessage_accepts_NaN_timestamp :
  let raw := Demo.wire "venyu:ready" "abc" (JNum NaN) (JObj ∅) in
  validateIncomingMessage raw =
    Some {| msg_type := "venyu:ready"; msg_version := Fin 1;
            msg_requestId := "req-1"; msg_timestamp := NaN;
            msg_nonce := "abc"; msg_payload := ∅ |}
  ∧ ¬ positive_number NaN.
Proof. split; [vm_compute; reflexivity | simpl; tauto]. Qed.

Lemma Malformed_rejected d : Malformed d → validateIncomingMessage d = None.
Proof.
  intros H. destruct (validateIncomingMessage d) as [m|] eqn:E; [|reflexivity].
  exfalso. apply validateIncomingMessage_Some in E.
  destruct E as (props & -> & Ht & _ & Hv & Hve & Hr & _ & Hn & _ & Hts & _ & Hpl).
  inversion H as [d' Hd | p' Hd | p' k ty Hin Hk | p' k ty Hin Hk | p' Hd]; subst.
  - by eapply Hd.
  - apply Hd. rewrite Hv. apply num_eqb_version in Hve as (q & -> & ?). by exists q.
  - assert (get props k = JUndefined) as Hu by (unfold get; by rewrite Hk).
    unfold field_types in Hin.
    repeat (apply elem_of_cons in Hin as [[= -> ->]|Hin]; [congruence|]).
    by apply elem_of_nil in Hin.
  - unfold field_types in Hin.
    repeat (apply elem_of_cons in Hin as [[= -> ->]|Hin];
            [apply Hk; by (rewrite Ht || rewrite Hv || rewrite Hr || rewrite Hts
                           || rewrite Hn || rewrite Hpl)|]).
    by apply elem_of_nil in Hin.
  - by eapply Hd.
Qed.

Section Router.

Context {host : Host}.

(** C3. A message whose declared origin is not the expected origin is
    dropped whatever its source and whatever its data: no effect is
    performed and the bridge is left as it was. *)
Theorem handleMessage_origin_mismatch env event b :
  origin event ≠ expectedOrigin →
  handleMessage env event b = (b, []).
Proof.
  intros Hne. unfold handleMessage.
  destruct (destroyed (state b)); [reflexivity|].
  destruct (String.eqb (origin event) expectedOrigin) eqn:E; [|reflexivity].
  by apply String.eqb_eq in E.
Qed.

(** C6. Malformed data is dropped: no effect is performed and the bridge
    (nonce, handshakeComplete, destroyed, popup and all the rest) is left
    as it was, also when origin and source are accepted. *)
Theorem handleMessage_malformed env event b :
  Malformed (data event) →
  handleMessage env event b = (b, []).
Proof.
  intros H%Malformed_rejected. unfold handleMessage.
  rewrite H. by repeat case_match.
Qed.

End Router.

(** ** Handlers: sequencing and what each one leaves alone *)

Lemma andThen_fst (f g : Handler) b : ((f >> g) b).1 = (g (f b).1).1.
Proof. reflexivity. Qed.

Lemma andThen_snd (f g : Handler) b : ((f >> g) b).2 = (f b).2 ++ (g (f b).1).2.
Proof. reflexivity. Qed.

Ltac unfold_glue :=
  unfold andThen, update, perform, call, skip, resolveReady, rejectReady, settle in *.

Section Handlers.

Context {host : Host}.

Lemma sendToIframe_bridge env ty p b : (sendToIframe env ty p b).1 = b.
Proof. unfold sendToIframe. by repeat case_match. Qed.

Lemma clearPopupPoll_session b : session (clearPopupPoll b).1 = session b.
Proof. unfold clearPopupPoll, clearInterval. unfold_glue. by repeat case_match. Qed.

Lemma clearPopupPoll_popup b : popup (state (clearPopupPoll b).1) = popup (state b).
Proof. unfold clearPopupPoll, clearInterval. unfold_glue. by repeat case_match. Qed.

Lemma clearPopupPoll_closed b : closedWindows (clearPopupPoll b).1 = closedWindows b.
Proof. unfold clearPopupPoll, clearInterval. unfold_glue. by repeat case_match. Qed.

Lemma clearPopupPoll_contentWindow b : contentWindow (clearPopupPoll b).1 = contentWindow b.
Proof. unfold clearPopupPoll, clearInterval. unfold_glue. by repeat case_match. Qed.

Lemma clearPopupPoll_pollId b : popupPollIntervalId (clearPopupPoll b).1 = None.
Proof. unfold clearPopupPoll, clearInterval. unfold_glue. by repeat case_match. Qed.

Lemma closeOpenPopup_session b : session (closeOpenPopup b).1 = session b.
Proof. unfold closeOpenPopup. by repeat case_match. Qed.

Lemma closeOpenPopup_popup b : popup (state (closeOpenPopup b).1) = popup (state b).
Proof. unfold closeOpenPopup. by repeat case_match. Qed.

Lemma closeOpenPopup_contentWindow b : contentWindow (closeOpenPopup b).1 = contentWindow b.
Proof. unfold closeOpenPopup. by repeat case_match. Qed.

Lemma pollPopup_session w b : session (pollPopup w b).1 = session b.
Proof.
  unfold pollPopup. case_match; [|done].
  rewrite andThen_fst. unfold_glue. simpl. apply clearPopupPoll_session.
Qed.

Lemma handleResize_session h b : session (handleResize h b).1 = session b.
Proof. unfold handleResize, assignHeight. by repeat case_match. Qed.

Lemma openAuthPopup_session env b : session (openAuthPopup env b).1 = session b.
Proof.
  unfold openAuthPopup. case_match; [done|].
  rewrite !andThen_fst.
  set (b2 := (closeOpenPopup (clearPopupPoll b).1).1).
  assert (session b2 = session b) as <-
    by (unfold b2; by rewrite closeOpenPopup_session, clearPopupPoll_session).
  clearbody b2. case_match; [|done].
  rewrite andThen_fst. unfold perform at 1. simpl.
  case_match.
  - unfold_glue. by simpl.
  - rewrite andThen_fst, sendToIframe_bridge. by unfold_glue.
Qed.

Lemma handlePopupMessage_session env m b :
  session (handlePopupMessage env m b).1 = session b.
Proof.
  unfold handlePopupMessage. rewrite !andThen_fst.
  set (b1 := (_ b).1).
  assert (b1 = b) as ->.
  { unfold b1. repeat case_match; try done. apply sendToIframe_bridge. }
  unfold update. simpl.
  change (session (closeOpenPopup (clearPopupPoll b).1).1 = session b).
  by rewrite closeOpenPopup_session, clearPopupPoll_session.
Qed.

Lemma dispatch_session env m b : session (dispatch env m b).1 = session b.
Proof.
  unfold dispatch.
  repeat case_match; try done; unfold_glue; simpl;
    auto using handleResize_session, openAuthPopup_session.
Qed.

Lemma sendConfigUpdate_bridge env upd b : (sendConfigUpdate env upd b).1 = b.
Proof. unfold sendConfigUpdate. repeat case_match; try done; apply sendToIframe_bridge. Qed.

End Handlers.

(** ** The handshake *)

Section Handshake.

Context {host : Host}.

Lemma handleReadyMessage_done env m b :
  handshakeComplete (state b) = true → handleReadyMessage env m b = (b, []).
Proof. intros E. unfold handleReadyMessage. by rewrite E. Qed.

(** The first ready signal while the frame's window is there. *)
Lemma handleReadyMessage_first env m b cw :
  handshakeComplete (state b) = false →
  contentWindow b = Some cw →
  handleReadyMessage env m b =
    ((resolveReady
        (with_state (set_nonce (Some (msg_nonce m)))
           (with_state (set_handshakeComplete true) b))).1,
     PostMessage cw (initMessage env (msg_nonce m)) expectedOrigin
       :: (if onReady (callbacks config) then [OnReady] else [])).
Proof.
  intros E Hcw. unfold handleReadyMessage. rewrite E.
  unfold_glue. simpl. rewrite Hcw. simpl.
  by destruct (onReady (callbacks config)), (readyPromise b).
Qed.

(** The first ready signal while the frame's window is gone. *)
Lemma handleReadyMessage_detached env m b :
  handshakeComplete (state b) = false →
  contentWindow b = None →
  handleReadyMessage env m b =
    ((rejectReady ERR_NO_WINDOW
        (with_state (set_nonce (Some (msg_nonce m)))
           (with_state (set_handshakeComplete true) b))).1,
     if onError (callbacks config) then [OnError ERR_NO_WINDOW] else []).
Proof.
  intros E Hcw. unfold handleReadyMessage. rewrite E.
  unfold_glue. simpl. rewrite Hcw. simpl.
  by destruct (onError (callbacks config)), (readyPromise b).
Qed.

(** Every way [handleMessage] can go. *)
Lemma handleMessage_cases env event b :
  handleMessage env event b = (b, [])
  ∨ (∃ m, validateIncomingMessage (data event) = Some m
        ∧ isFromPopup event b = true
        ∧ popup_gate m b = true
        ∧ handleMessage env event b = handlePopupMessage env m b)
  ∨ (∃ m, validateIncomingMessage (data event) = Some m
        ∧ isFromPopup event b = false
        ∧ handleMessage env event b = handleReadyMessage env m b)
  ∨ (∃ m, validateIncomingMessage (data event) = Some m
        ∧ nonce_gate m b = true
        ∧ handleMessage env event b = dispatch env m b).
Proof.
  unfold handleMessage, popup_gate, nonce_gate.
  destruct (destroyed (state b)); [by left|].
  destruct (negb (origin event =? expectedOrigin)%string); [by left|].
  destruct (negb (isFromIframe event b) && negb (isFromPopup event b)); [by left|].
  destruct (validateIncomingMessage (data event)) as [m|]; [|by left].
  destruct (isFromPopup event b).
  - destruct (msg_type m =? "venyu:auth:popup-result")%string eqn:Et; simpl; [|by left].
    destruct (falsy (nonce (state b))) eqn:Ef; simpl; [by left|].
    destruct (nonce_differs m b) eqn:En; simpl; [by left|].
    right; left. exists m. by rewrite Et, En.
  - destruct (msg_type m =? "venyu:ready")%string.
    { right; right; left. by exists m. }
    destruct (handshakeComplete (state b)) eqn:Eh; simpl; [|by left].
    destruct (nonce_differs m b) eqn:En; simpl; [by left|].
    right; right; right. exists m. by rewrite En.
Qed.

Lemma isFromPopup_tracked event b :
  isFromPopup event b = true → popup (state b) ≠ None.
Proof. unfold isFromPopup. by destruct (popup (state b)). Qed.

End Handshake.

(** ** What every reachable bridge satisfies *)

Section Invariant.

Context {host : Host}.

Lemma handlePopupMessage_popup env m b :
  popup (state (handlePopupMessage env m b).1) = None.
Proof. unfold handlePopupMessage. by rewrite !andThen_fst. Qed.

Lemma pollPopup_popup w b :
  popup (state (pollPopup w b).1) = popup (state b)
  ∨ popup (state (pollPopup w b).1) = None.
Proof. unfold pollPopup. case_match; [by right | by left]. Qed.

Lemma settle_promise p b :
  readyPromise (settle p b).1 =
    match readyPromise b with Pending => p | q => q end.
Proof. unfold settle, update. simpl. by destruct (readyPromise b) eqn:E. Qed.

Lemma settle_state p b : state (settle p b).1 = state b.
Proof. unfold settle, update. simpl. by destruct (readyPromise b). Qed.

Lemma settle_listening p b : listening (settle p b).1 = listening b.
Proof. unfold settle, update. simpl. by destruct (readyPromise b). Qed.

(** [destroy] on a live bridge. *)
Lemma destroy_live b :
  destroyed (state b) = false →
  session (destroy b).1 =
    (nonce (state b), handshakeComplete (state b), true,
     match readyPromise b with Pending => Rejected ERR_DESTROYED | q => q end,
     false)
  ∧ popup (state (destroy b).1) = None
  ∧ popupPollIntervalId (destroy b).1 = None.
Proof.
  intros E. unfold destroy. rewrite E. rewrite !andThen_fst.
  unfold rejectReady, session.
  rewrite settle_promise, settle_state, settle_listening.
  unfold update at 1 2 3. simpl.
  set (b1 := set_listening false _).
  pose proof (clearPopupPoll_session b1) as Hs.
  pose proof (closeOpenPopup_session (clearPopupPoll b1).1) as Hs'.
  rewrite Hs in Hs'. unfold session in Hs'. simpl in Hs'.
  injection Hs' as -> -> -> -> ->.
  repeat split.
  unfold closeOpenPopup. repeat case_match; simpl; apply clearPopupPoll_pollId.
Qed.

Lemma destroy_dead b :
  destroyed (state b) = true → destroy b = (b, []).
Proof. intros E. unfold destroy. by rewrite E. Qed.

Lemma inv_created cw h cl : inv (createMessagingBridge cw h cl).
Proof. by split. Qed.

(** A handler that leaves the session alone, and the popup too unless the
    handshake is complete, keeps the invariant. *)
Lemma inv_same_session b b' :
  session b' = session b →
  popup (state b') = popup (state b) ∨ popup (state b') = None
    ∨ handshakeComplete (state b) = true →
  inv b → inv b'.
Proof.
  unfold session. intros [= En Eh Ed Ep El] Hp [I1 I2 I3 I4 I5].
  split; rewrite ?En, ?Eh, ?Ed, ?Ep, ?El; try done.
  intros Hh. destruct (I2 Hh) as [? Hpop]. split; [done|].
  destruct Hp as [->|[->|?]]; [done|done|congruence].
Qed.

Lemma handleMessage_inv env event b : inv b → inv (handleMessage env event b).1.
Proof.
  intros I.
  destruct (handleMessage_cases env event b)
    as [->|[(m & Hv & Hp & _ & ->)|[(m & Hv & Hp & ->)|(m & Hv & Hg & ->)]]].
  - done.
  - eapply inv_same_session; [apply handlePopupMessage_session| |done].
    right; left. apply handlePopupMessage_popup.
  - destruct (handshakeComplete (state b)) eqn:Eh.
    { by rewrite handleReadyMessage_done. }
    pose proof (validateIncomingMessage_nonce _ _ Hv) as Hn.
    destruct I as [I1 I2 I3 I4 I5].
    destruct (contentWindow b) as [cw|] eqn:Ecw.
    + rewrite (handleReadyMessage_first _ _ _ cw) by done.
      unfold resolveReady, settle, update. simpl.
      destruct (readyPromise b) eqn:Ep; split; simpl; rewrite ?Ep; try done;
        intros _; by exists (msg_nonce m).
    + rewrite handleReadyMessage_detached by done.
      unfold rejectReady, settle, update. simpl.
      destruct (readyPromise b) eqn:Ep; split; simpl; rewrite ?Ep; try done;
        intros _; by exists (msg_nonce m).
  - eapply inv_same_session; [apply dispatch_session| |done].
    right; right. unfold nonce_gate in Hg. by apply andb_prop in Hg as [? _].
Qed.

Lemma step_inv a b : inv b → inv (step a b).1.
Proof.
  intros I. destruct a as [env event|id| |env upd|w|cw]; simpl.
  - destruct (listening b); [by apply handleMessage_inv|done].
  - destruct (list_find _ _) as [[? [? w]]|]; [|done].
    eapply inv_same_session; [apply pollPopup_session| |done].
    destruct (pollPopup_popup w b); tauto.
  - destruct (destroyed (state b)) eqn:Ed.
    { by rewrite destroy_dead. }
    destruct (destroy_live b Ed) as ([= En Eh Ed' Ep El] & Hp & _).
    destruct I as [I1 I2 I3 I4 I5].
    split; rewrite ?En, ?Eh, ?Ed', ?Ep, ?El, ?Hp; try done.
    + intros _. by destruct (readyPromise b).
    + intros Hh. by destruct (I2 Hh).
  - by rewrite sendConfigUpdate_bridge.
  - by destruct I.
  - by destruct I.
Qed.

Lemma run_inv acts b : inv b → inv (run acts b).1.
Proof.
  revert b. induction acts as [|a acts IH]; intros b I; [done|].
  cbn [run]. rewrite andThen_fst. by apply IH, step_inv.
Qed.

Lemma reachable_inv b : reachable b → inv b.
Proof. intros (cw & h & cl & acts & ->). apply run_inv, inv_created. Qed.

Lemma reachable_created cw h cl : reachable (createMessagingBridge cw h cl).
Proof. by exists cw, h, cl, []. Qed.

Lemma run_app acts1 acts2 b :
  run (acts1 ++ acts2) b =
    ((run acts2 (run acts1 b).1).1, (run acts1 b).2 ++ (run acts2 (run acts1 b).1).2).
Proof.
  revert b. induction acts1 as [|a acts1 IH]; intros b; simpl.
  - unfold skip. simpl. by destruct (run acts2 b).
  - unfold andThen at 1. rewrite IH. simpl.
    unfold andThen. simpl. by rewrite app_assoc.
Qed.

Lemma reachable_run acts b : reachable b → reachable (run acts b).1.
Proof.
  intros (cw & h & cl & acts0 & ->). exists cw, h, cl, (acts0 ++ acts).
  by rewrite run_app.
Qed.

(** Once the handshake is complete, neither the flag nor the nonce changes. *)
Lemma step_sealed n a b : sealed n b → sealed n (step a b).1.
Proof.
  unfold sealed. intros [Eh En].
  assert (∀ b', session b' = session b →
            handshakeComplete (state b') = true ∧ nonce (state b') = Some n) as Hs.
  { unfold session. intros b' [= -> -> _ _ _]. done. }
  destruct a as [env event|id| |env upd|w|cw]; simpl.
  - destruct (listening b); [|done].
    destruct (handleMessage_cases env event b)
      as [->|[(m & _ & _ & _ & ->)|[(m & _ & _ & ->)|(m & _ & _ & ->)]]].
    + done.
    + apply Hs, handlePopupMessage_session.
    + by rewrite handleReadyMessage_done.
    + apply Hs, dispatch_session.
  - destruct (list_find _ _) as [[? [? w]]|]; [|done].
    apply Hs, pollPopup_session.
  - destruct (destroyed (state b)) eqn:Ed.
    { by rewrite destroy_dead. }
    destruct (destroy_live b Ed) as ([= -> -> _ _ _] & _). done.
  - by rewrite sendConfigUpdate_bridge.
  - done.
  - done.
Qed.

Lemma run_sealed n acts b : sealed n b → sealed n (run acts b).1.
Proof.
  revert b. induction acts as [|a acts IH]; intros b I; [done|].
  cbn [run]. rewrite andThen_fst. by apply IH, step_sealed.
Qed.

(** A settled readiness promise stays as it is. *)
Lemma step_settled a b :
  readyPromise b ≠ Pending → readyPromise (step a b).1 = readyPromise b.
Proof.
  intros Hp.
  assert (∀ b', session b' = session b → readyPromise b' = readyPromise b) as Hs.
  { unfold session. by intros b' [= _ _ _ -> _]. }
  destruct a as [env event|id| |env upd|w|cw]; simpl.
  - destruct (listening b); [|done].
    destruct (handleMessage_cases env event b)
      as [->|[(m & _ & _ & _ & ->)|[(m & _ & _ & ->)|(m & _ & _ & ->)]]].
    + done.
    + apply Hs, handlePopupMessage_session.
    + destruct (handshakeComplete (state b)) eqn:Eh.
      { by rewrite handleReadyMessage_done. }
      destruct (contentWindow b) as [cw|] eqn:Ecw.
      * rewrite (handleReadyMessage_first _ _ _ cw) by done.
        unfold resolveReady, settle, update. simpl.
        destruct (readyPromise b) eqn:Ep; simpl; congruence.
      * rewrite handleReadyMessage_detached by done.
        unfold rejectReady, settle, update. simpl.
        destruct (readyPromise b) eqn:Ep; simpl; congruence.
    + apply Hs, dispatch_session.
  - destruct (list_find _ _) as [[? [? w]]|]; [|done].
    apply Hs, pollPopup_session.
  - destruct (destroyed (state b)) eqn:Ed.
    { by rewrite destroy_dead. }
    destruct (destroy_live b Ed) as ([= _ _ _ -> _] & _).
    destruct (readyPromise b) eqn:Ep; simpl; congruence.
  - by rewrite sendConfigUpdate_bridge.
  - done.
  - done.
Qed.

Lemma run_settled acts b :
  readyPromise b ≠ Pending → readyPromise (run acts b).1 = readyPromise b.
Proof.
  revert b. induction acts as [|a acts IH]; intros b I; [done|].
  cbn [run]. rewrite andThen_fst. rewrite IH; rewrite step_settled; done.
Qed.

End Invariant.

(** ** The router and the handshake: the stated properties *)

Section Properties.

Context {host : Host}.

Lemma nonce_differs_false m b :
  nonce_differs m b = false ↔ nonce (state b) = Some (msg_nonce m).
Proof.
  unfold nonce_differs. destruct (nonce (state b)) as [n|]; [|done].
  rewrite negb_false_iff, String.eqb_eq. split; congruence.
Qed.

Lemma nonce_gate_true m b :
  nonce_gate m b = true ↔
  handshakeComplete (state b) = true ∧ nonce (state b) = Some (msg_nonce m).
Proof.
  unfold nonce_gate. rewrite andb_true_iff, negb_true_iff.
  by rewrite nonce_differs_false.
Qed.

Lemma popup_gate_true m b :
  popup_gate m b = true ↔
  msg_type m = "venyu:auth:popup-result"
  ∧ nonce (state b) = Some (msg_nonce m) ∧ msg_nonce m ≠ "".
Proof.
  unfold popup_gate. rewrite !andb_true_iff, !negb_true_iff.
  rewrite nonce_differs_false, String.eqb_eq.
  unfold falsy. split.
  - intros [[Ht Hf] Hn]. rewrite Hn in Hf. by apply str_empty_false in Hf.
  - intros (Ht & Hn & Hne). rewrite Hn. by apply str_empty_false in Hne.
Qed.

(** A ready signal that arrives after the handshake is dropped, whoever
    sent it. *)
Lemma ready_after_handshake_dropped env event b :
  handshakeComplete (state b) = true →
  ready_signal event →
  handleMessage env event b = (b, []).
Proof.
  intros Hh (m & Hv & Ht).
  unfold handleMessage. rewrite Hv, Ht. simpl.
  rewrite handleReadyMessage_done by done.
  by repeat case_match.
Qed.

Lemma deliveries_after_handshake l b :
  handshakeComplete (state b) = true →
  Forall (fun p => ready_signal p.2) l →
  run (deliveries l) b = (b, []).
Proof.
  intros Hh Hl. induction Hl as [|[env event] l Hr _ IH]; [done|].
  unfold deliveries in *. cbn [map run fst snd]. unfold andThen.
  assert (step (Deliver env event) b = (b, [])) as ->.
  { simpl. destruct (listening b); [|done].
    by apply ready_after_handshake_dropped. }
  simpl. by rewrite IH.
Qed.

(** C1. Ready signals reach a bridge that still awaits the handshake while
    the frame's window [cw] is there: the first one, sent by the frame from
    the expected origin, completes the handshake with its nonce, posts the
    init message carrying that nonce in the envelope and in the payload,
    fulfils the readiness promise and calls onReady once (when given); all
    the later ones together change nothing and perform nothing; and whatever
    happens afterwards, the nonce stays the first signal's. *)
Theorem ready_signals_complete_handshake_once env event m later b cw :
  reachable b →
  awaiting_ready b →
  contentWindow b = Some cw →
  origin event = expectedOrigin →
  source event = Some cw →
  validateIncomingMessage (data event) = Some m →
  msg_type m = "venyu:ready" →
  Forall (fun p => ready_signal p.2) later →
  let first := handleMessage env event b in
  let init := initMessage env (msg_nonce m) in
  sealed (msg_nonce m) first.1
  ∧ readyPromise first.1 = Fulfilled
  ∧ first.2 = PostMessage cw init expectedOrigin
                :: (if onReady (callbacks config) then [OnReady] else [])
  ∧ msg_type init = "venyu:init"
  ∧ msg_nonce init = msg_nonce m
  ∧ get (msg_payload init) "nonce" = JStr (msg_nonce m)
  ∧ count is_OnReady first.2 = (if onReady (callbacks config) then 1 else 0)
  ∧ run (deliveries ((env, event) :: later)) b = first
  ∧ ∀ acts, sealed (msg_nonce m) (run acts first.1).1.
Proof.
  intros Hr [Hh Hd] Hcw Ho Hs Hv Ht Hl first init.
  pose proof (reachable_inv _ Hr) as [I1 I2 I3 I4 I5].
  destruct (I2 Hh) as [Hn Hp]. pose proof (I3 Hh Hd) as Hpend.
  assert (first = handleReadyMessage env m b) as Hfirst.
  { unfold first, handleMessage, isFromIframe, isFromPopup, opt_eqb.
    rewrite Hd, Ho, String.eqb_refl, Hs, Hcw, Hp, Hv, Ht. simpl.
    by rewrite bool_decide_eq_true_2. }
  rewrite (handleReadyMessage_first _ _ _ cw) in Hfirst by done.
  assert (sealed (msg_nonce m) first.1) as Hsealed.
  { rewrite Hfirst. unfold resolveReady, settle, update, sealed. simpl.
    by rewrite Hpend. }
  split; [done|]. split.
  { rewrite Hfirst. unfold resolveReady, settle, update. simpl.
    by rewrite Hpend. }
  split; [by rewrite Hfirst|].
  split; [done|]. split; [done|].
  split; [unfold init, initMessage, buildMessage, get; simpl;
          by rewrite lookup_insert_eq|].
  split; [rewrite Hfirst; simpl; by destruct (onReady (callbacks config))|].
  split; [|intros acts; by apply run_sealed].
  unfold deliveries. cbn [map run fst snd]. unfold andThen.
  assert (step (Deliver env event) b = first) as ->.
  { simpl. rewrite I5, Hd. done. }
  fold (deliveries later).
  rewrite deliveries_after_handshake; [|apply Hsealed|done].
  simpl. rewrite app_nil_r. by destruct first.
Qed.

(** Step 6 of [handleMessage], for a message that got that far. *)
Lemma handleMessage_frame_other env event m b :
  destroyed (state b) = false →
  origin event = expectedOrigin →
  isFromIframe event b = true →
  isFromPopup event b = false →
  validateIncomingMessage (data event) = Some m →
  msg_type m ≠ "venyu:ready" →
  handleMessage env event b =
    if nonce_gate m b then dispatch env m b else (b, []).
Proof.
  intros Hd Ho Hi Hp Hv Ht.
  apply String.eqb_neq in Ht.
  unfold handleMessage, nonce_gate.
  rewrite Hd, Ho, String.eqb_refl, Hi, Hp, Hv, Ht. simpl.
  destruct (handshakeComplete (state b)); simpl; [|done].
  by destruct (nonce_differs m b).
Qed.

(** The type switch calls what [reactor_of] names, and nothing else. *)
Lemma dispatch_reactor env m b :
  dispatch env m b =
    match reactor_of m with
    | Some r => invoke env r b
    | None => (b, [])
    end.
Proof.
  unfold dispatch, reactor_of, invoke, skip.
  repeat (case_match; simplify_eq; try done).
Qed.

(** The switch calls something exactly for a known type whose payload has
    what the case of that type reads. *)
Lemma reactor_of_is_Some m :
  is_Some (reactor_of m) ↔ msg_type m ∈ known_types ∧ payload_fits m.
Proof.
  unfold reactor_of, payload_fits, known_types.
  rewrite !elem_of_cons, elem_of_nil.
  destruct (String.eqb_spec (msg_type m) "venyu:resize") as [->|E1].
  { split.
    - intros Hs. split; [by left|]. repeat split; try discriminate.
      destruct (get (msg_payload m) "height"); try done; by destruct Hs as [? [=]].
    - intros (_ & H1 & _). specialize (H1 eq_refl).
      destruct (get (msg_payload m) "height"); try done; by eexists. }
  destruct (String.eqb_spec (msg_type m) "venyu:booked") as [->|E2].
  { split.
    - intros Hs. split; [by right; left|]. repeat split; try discriminate.
      + destruct (get (msg_payload m) "bookingId"); try done;
          by destruct Hs as [? [=]].
      + destruct (get (msg_payload m) "bookingId"),
          (get (msg_payload m) "status"); try done; by destruct Hs as [? [=]].
    - intros (_ & _ & H2 & _). destruct (H2 eq_refl) as [Hb Hst].
      destruct (get (msg_payload m) "bookingId"),
        (get (msg_payload m) "status"); try done; by eexists. }
  destruct (String.eqb_spec (msg_type m) "venyu:auth:open-popup") as [->|E3].
  { split; [|by eexists]. intros _. split; [by right; right; left|].
    repeat split; discriminate. }
  destruct (String.eqb_spec (msg_type m) "venyu:auth:fallback-required") as [->|E4].
  { split.
    - intros Hs. split; [by right; right; right; left|].
      repeat split; try discriminate.
      destruct (get (msg_payload m) "reason"); try done; by destruct Hs as [? [=]].
    - intros (_ & _ & _ & H3). specialize (H3 eq_refl).
      destruct (get (msg_payload m) "reason"); try done; by eexists. }
  destruct (String.eqb_spec (msg_type m) "venyu:navigate") as [->|E5].
  { split; [|by eexists]. intros _. split; [by right; right; right; right; left|].
    repeat split; discriminate. }
  split; [by intros [? [=]]|].
  by intros [[?|[?|[?|[?|[?|[]]]]]] _].
Qed.

(** C2 (amended). A structurally valid message from the frame (and not from
    the popup) of any type but the ready signal is dropped, nothing
    performed and nothing changed, unless the handshake is complete and its
    nonce is the session nonce. When both hold, the type switch calls the
    handler of the message's type with what the payload holds, provided the
    type is one of the five the switch knows and the payload has what that
    case reads; for any other type or payload no handler is called either.
    So a handler is called exactly when the handshake is complete, the
    nonce is the session nonce, the type is known and the payload fits. *)
Theorem handleMessage_frame_nonce_gate env event m b :
  destroyed (state b) = false →
  origin event = expectedOrigin →
  isFromIframe event b = true →
  isFromPopup event b = false →
  validateIncomingMessage (data event) = Some m →
  msg_type m ≠ "venyu:ready" →
  handleMessage env event b =
    match routed m b with
    | Some r => invoke env r b
    | None => (b, [])
    end
  ∧ (is_Some (routed m b) ↔
     sealed (msg_nonce m) b ∧ msg_type m ∈ known_types ∧ payload_fits m)
  ∧ (¬ sealed (msg_nonce m) b → handleMessage env event b = (b, [])).
Proof.
  intros Hd Ho Hi Hp Hv Ht.
  rewrite (handleMessage_frame_other env event m b) by done.
  unfold routed, sealed. rewrite <- nonce_gate_true.
  destruct (nonce_gate m b).
  - rewrite dispatch_reactor. split; [done|]. split; [|by intros []].
    rewrite reactor_of_is_Some. tauto.
  - split; [done|]. split; [|done].
    split; [by intros [? [=]]|]. by intros [[=] _].
Qed.

(** C4. A message whose source is the tracked, open popup is handed to
    [handlePopupMessage] when the bridge is live, the origin is the expected
    one, the data is structurally valid, its type is
    ['venyu:auth:popup-result'] and the session nonce exists and equals its
    nonce; in every other case it is dropped. *)
Theorem handleMessage_popup_gate env event b :
  isFromPopup event b = true →
  (∀ m, destroyed (state b) = false →
        origin event = expectedOrigin →
        validateIncomingMessage (data event) = Some m →
        msg_type m = "venyu:auth:popup-result" →
        nonce (state b) = Some (msg_nonce m) →
        handleMessage env event b = handlePopupMessage env m b)
  ∧ (¬ (∃ m, destroyed (state b) = false
             ∧ origin event = expectedOrigin
             ∧ validateIncomingMessage (data event) = Some m
             ∧ msg_type m = "venyu:auth:popup-result"
             ∧ nonce (state b) = Some (msg_nonce m)) →
     handleMessage env event b = (b, [])).
Proof.
  intros Hp.
  assert (handleMessage env event b =
          if destroyed (state b) then (b, []) else
          if negb (origin event =? expectedOrigin)%string then (b, []) else
          match validateIncomingMessage (data event) with
          | Some m => if popup_gate m b then handlePopupMessage env m b else (b, [])
          | None => (b, [])
          end) as ->.
  { unfold handleMessage, popup_gate. rewrite Hp, andb_false_r.
    destruct (destroyed (state b)); [done|].
    destruct (negb (origin event =? expectedOrigin)%string); [done|].
    destruct (validateIncomingMessage (data event)) as [m|]; [|done].
    destruct (msg_type m =? "venyu:auth:popup-result")%string; [|done].
    destruct (falsy (nonce (state b))); [done|].
    by destruct (nonce_differs m b). }
  split.
  - intros m Hd Ho Hv Ht Hn. rewrite Hd, Ho, String.eqb_refl, Hv. simpl.
    assert (popup_gate m b = true) as ->; [|done].
    apply popup_gate_true. split; [done|]. split; [done|].
    by eapply validateIncomingMessage_nonce.
  - intros Hno.
    destruct (destroyed (state b)) eqn:Hd; [done|].
    destruct (origin event =? expectedOrigin)%string eqn:Ho; [|done]. simpl.
    destruct (validateIncomingMessage (data event)) as [m|] eqn:Hv; [|done].
    destruct (popup_gate m b) eqn:Hg; [|done].
    exfalso. apply Hno. exists m. apply String.eqb_eq in Ho.
    apply popup_gate_true in Hg as (? & ? & _). done.
Qed.

Lemma clearPopupPoll_snd b : (clearPopupPoll b).2 = poll_effects b.
Proof. unfold clearPopupPoll, poll_effects. by case_match. Qed.

Lemma closeOpenPopup_snd b : (closeOpenPopup b).2 = close_effects b.
Proof. unfold closeOpenPopup, close_effects. by repeat case_match. Qed.

Lemma close_effects_after_clear b :
  close_effects (clearPopupPoll b).1 = close_effects b.
Proof.
  unfold close_effects, closed.
  by rewrite clearPopupPoll_popup, clearPopupPoll_closed.
Qed.

Lemma count_app p l1 l2 : count p (l1 ++ l2) = count p l1 + count p l2.
Proof. unfold count. by rewrite List.filter_app, length_app. Qed.

Lemma count_poll_effects p b :
  (∀ id, p (ClearInterval id) = false) → count p (poll_effects b) = 0.
Proof.
  intros Hp. unfold poll_effects, count. case_match; [|done].
  simpl. by rewrite Hp.
Qed.

(** The effects of [destroy] on a live bridge. *)
Lemma destroy_live_effects b :
  destroyed (state b) = false →
  (destroy b).2 = RemoveListener :: poll_effects b ++ close_effects b.
Proof.
  intros E. unfold destroy. rewrite E. rewrite !andThen_snd.
  rewrite clearPopupPoll_snd, closeOpenPopup_snd.
  unfold update at 1 2 3 4 5. unfold rejectReady, settle, update.
  cbn [fst snd]. rewrite close_effects_after_clear. simpl.
  by rewrite !app_nil_r.
Qed.

(** C7. On any bridge that can exist, [destroy] sets the destroyed flag and
    settles the readiness promise: a pending one is rejected with the
    destruction error, a settled one is kept. A second call changes nothing
    and performs nothing, so calling twice is calling once. On a live bridge
    the first call removes the listener once, closes the tracked popup once
    if it is open, and forgets popup and poll. *)
Theorem destroy_idempotent b :
  reachable b →
  let once := destroy b in
  destroy once.1 = (once.1, [])
  ∧ run [CallDestroy; CallDestroy] b = once
  ∧ destroyed (state once.1) = true
  ∧ readyPromise once.1 =
      match readyPromise b with Pending => Rejected ERR_DESTROYED | q => q end
  ∧ (destroyed (state b) = false →
       once.2 = RemoveListener :: poll_effects b ++ close_effects b
       ∧ count is_RemoveListener once.2 = 1
       ∧ count is_WindowClose once.2 = List.length (close_effects b)
       ∧ (List.length (close_effects b) ≤ 1)%nat
       ∧ listening once.1 = false
       ∧ popup (state once.1) = None
       ∧ popupPollIntervalId once.1 = None).
Proof.
  intros Hr once.
  pose proof (reachable_inv _ Hr) as [I1 _ _ _ _].
  assert (destroyed (state once.1) = true
          ∧ readyPromise once.1 =
              match readyPromise b with Pending => Rejected ERR_DESTROYED | q => q end)
    as [Hd Hp].
  { unfold once. destruct (destroyed (state b)) eqn:Ed.
    - rewrite destroy_dead by done. simpl. split; [done|].
      specialize (I1 eq_refl). by destruct (readyPromise b).
    - by destruct (destroy_live b Ed) as ([= _ _ -> -> _] & _). }
  assert (destroy once.1 = (once.1, [])) as Hsecond by by apply destroy_dead.
  split; [done|]. split.
  { cbn [run step]. unfold andThen, skip. fold once. rewrite Hsecond. simpl.
    rewrite app_nil_r. by destruct once. }
  split; [done|]. split; [done|].
  intros Ed. unfold once.
  destruct (destroy_live b Ed) as ([= _ _ _ _ Hl] & Hpop & Hpoll).
  rewrite destroy_live_effects by done.
  split; [done|]. split.
  { change (RemoveListener :: ?l) with ([RemoveListener] ++ l).
    rewrite !count_app, count_poll_effects by done.
    unfold close_effects. by repeat case_match. }
  split.
  { change (RemoveListener :: ?l) with ([RemoveListener] ++ l).
    rewrite !count_app, count_poll_effects by done.
    unfold close_effects. by repeat case_match. }
  split; [unfold close_effects; repeat case_match; simpl; lia|].
  done.
Qed.

(** What [openAuthPopup] does when the browser refuses the window, on a
    live bridge that completed its handshake and whose frame window is
    there: whatever popup was tracked before is still the tracked one. *)
Lemma openAuthPopup_blocked env b n cw o :
  destroyed (state b) = false →
  nonce (state b) = Some n → n ≠ "" →
  contentWindow b = Some cw →
  URL_origin (playUrl config +:+ "/embed/auth/popup") = Some o →
  env_open env = None →
  let after := openAuthPopup env b in
  after.2 =
    poll_effects b ++ close_effects b
    ++ [WindowOpen {| url_base := playUrl config +:+ "/embed/auth/popup";
                      url_parentOrigin := windowOrigin;
                      url_nonce := Some n;
                      url_embedSessionId := embedSessionId config |}
          "venyu-auth" (env_features env);
        PostMessage cw (buildMessage env "venyu:auth:popup-result" blocked_payload n)
          expectedOrigin]
    ++ (if onError (callbacks config) then [OnError ERR_POPUP_BLOCKED] else [])
  ∧ popup (state after.1) = popup (state b)
  ∧ popupPollIntervalId after.1 = None.
Proof.
  intros Hd Hn Hne Hcw Hu Ho after. unfold after, openAuthPopup.
  rewrite Hd, Hu, Ho.
  rewrite !andThen_snd, !andThen_fst, clearPopupPoll_snd, closeOpenPopup_snd,
    close_effects_after_clear.
  set (b2 := (closeOpenPopup (clearPopupPoll b).1).1).
  assert (session b2 = session b) as Hs
    by (unfold b2; by rewrite closeOpenPopup_session, clearPopupPoll_session).
  assert (contentWindow b2 = Some cw) as Hcw2
    by (unfold b2; by rewrite closeOpenPopup_contentWindow, clearPopupPoll_contentWindow).
  assert (popup (state b2) = popup (state b)) as Hp2
    by (unfold b2; by rewrite closeOpenPopup_popup, clearPopupPoll_popup).
  assert (popupPollIntervalId b2 = None) as Hpoll.
  { unfold b2, closeOpenPopup. repeat case_match; simpl; apply clearPopupPoll_pollId. }
  unfold session in Hs. injection Hs as Hn2 _ Hd2 _ _.
  rewrite Hn in Hn2. rewrite Hd in Hd2.
  apply str_empty_false in Hne.
  unfold perform, call, sendToIframe. cbn [fst snd].
  rewrite Hd2, Hn2, Hcw2. unfold falsy. rewrite Hne. simpl.
  by destruct (onError (callbacks config)).
Qed.

(** What [handleResize] does, value by value. *)
Lemma handleResize_spec height b :
  (destroyed (state b) = true → handleResize height b = (b, []))
  ∧ ((∀ h, height ≠ JNum h) → handleResize height b = (b, []))
  ∧ (∀ h, height = JNum h → ¬ nonneg_number h →
          handleResize height b = (b, []))
  ∧ (handleResize (JNum PosInf) b = (b, []))
  ∧ (∀ q, height = JNum (Fin q) → destroyed (state b) = false → (0 <= q)%Q →
          handleResize height b =
            (set_styleHeight (CssPx (Math_ceil (Fin q))) b, [])).
Proof.
  unfold handleResize. repeat split.
  - by intros ->.
  - intros Hn. destruct (destroyed (state b)); [done|].
    destruct height; try done. by edestruct Hn.
  - intros h -> Hneg. destruct (destroyed (state b)); [done|].
    destruct (num_ltb h zero) eqn:E; [done|].
    apply num_ltb_zero_false in E as [?| ->]; done.
  - by destruct (destroyed (state b)).
  - intros q -> -> Hq.
    assert (num_ltb (Fin q) zero = false) as ->
      by (apply num_ltb_zero_false; by left).
    simpl. by rewrite ceil_nonneg.
Qed.

(** C9 (amended). For every value passed to [handleResize]: when the bridge
    is destroyed, or the value is not a finite number that is not negative
    (it is no number, is negative, is NaN or is infinite), the call leaves
    the bridge, and so the frame's height, as it was; otherwise the frame's
    height becomes the ceiling of the value, in pixels, and nothing else
    changes. The resize case of the type switch hands the payload's height
    to [handleResize]. *)
Theorem handleResize_sets_ceiling env height b :
  (destroyed (state b) = true ∨ ¬ finite_nonneg height →
   handleResize height b = (b, []))
  ∧ (destroyed (state b) = false →
     ∀ q, height = JNum (Fin q) → (0 <= q)%Q →
       handleResize height b =
         (set_styleHeight (CssPx (Fin (inject_Z (Qceiling q)))) b, []))
  ∧ (∀ m, msg_type m = "venyu:resize" →
          get (msg_payload m) "height" = height →
          dispatch env m b = handleResize height b).
Proof.
  destruct (handleResize_spec height b) as (Hdead & Hother & Hneg & Hinf & Hset).
  split; [|split].
  - intros [Hd|Hn]; [by apply Hdead|].
    destruct height as [| | |h| | |]; try (by apply Hother).
    destruct h as [| | |q].
    + apply (Hneg _ eq_refl). simpl. tauto.
    + exact Hinf.
    + apply (Hneg _ eq_refl). simpl. tauto.
    + apply (Hneg _ eq_refl). simpl. intros Hq. apply Hn. by exists q.
  - intros Hd q -> Hq. by apply Hset.
  - intros m Ht <-. unfold dispatch. rewrite Ht. simpl.
    unfold handleResize, skip.
    destruct (get (msg_payload m) "height"); try done;
      by destruct (destroyed (state b)).
Qed.

(** C10. The first ready signal arrives while the frame has no content
    window: the error callback is called (when given) and the readiness
    promise is rejected, yet the handshake is marked complete and the nonce
    captured. From then on, whatever happens, the promise stays rejected,
    every ready signal is dropped, and a frame message that carries the
    captured nonce reaches the type switch. *)
Theorem ready_without_contentWindow env event m b :
  reachable b →
  awaiting_ready b →
  contentWindow b = None →
  origin event = expectedOrigin →
  source event = None →
  validateIncomingMessage (data event) = Some m →
  msg_type m = "venyu:ready" →
  let failed := handleMessage env event b in
  failed.2 = (if onError (callbacks config) then [OnError ERR_NO_WINDOW] else [])
  ∧ readyPromise failed.1 = Rejected ERR_NO_WINDOW
  ∧ sealed (msg_nonce m) failed.1
  ∧ ∀ acts,
      let b' := (run acts failed.1).1 in
      readyPromise b' = Rejected ERR_NO_WINDOW
      ∧ sealed (msg_nonce m) b'
      ∧ (∀ env' event', ready_signal event' → handleMessage env' event' b' = (b', []))
      ∧ (∀ env' event' m',
           destroyed (state b') = false →
           origin event' = expectedOrigin →
           isFromIframe event' b' = true →
           isFromPopup event' b' = false →
           validateIncomingMessage (data event') = Some m' →
           msg_type m' ≠ "venyu:ready" →
           msg_nonce m' = msg_nonce m →
           handleMessage env' event' b' = dispatch env' m' b').
Proof.
  intros Hr [Hh Hd] Hcw Ho Hs Hv Ht failed.
  pose proof (reachable_inv _ Hr) as [I1 I2 I3 I4 I5].
  destruct (I2 Hh) as [Hn Hp]. pose proof (I3 Hh Hd) as Hpend.
  assert (failed = handleReadyMessage env m b) as Hfailed.
  { unfold failed, handleMessage, isFromIframe, isFromPopup, opt_eqb.
    rewrite Hd, Ho, String.eqb_refl, Hs, Hcw, Hp, Hv, Ht. simpl.
    done. }
  rewrite handleReadyMessage_detached in Hfailed by done.
  assert (readyPromise failed.1 = Rejected ERR_NO_WINDOW) as Hrej.
  { rewrite Hfailed. unfold rejectReady, settle, update. simpl. by rewrite Hpend. }
  assert (sealed (msg_nonce m) failed.1) as Hsealed.
  { rewrite Hfailed. unfold rejectReady, settle, update, sealed. simpl.
    by rewrite Hpend. }
  split; [by rewrite Hfailed|]. split; [done|]. split; [done|].
  intros acts b'.
  pose proof (run_sealed _ acts _ Hsealed) as Hsealed'. fold b' in Hsealed'.
  split; [unfold b'; rewrite run_settled; rewrite Hrej; done|].
  split; [done|]. split.
  - intros env' event' Hready. apply ready_after_handshake_dropped; [|done].
    by destruct Hsealed'.
  - intros env' event' m' Hd' Ho' Hi' Hp' Hv' Ht' Hnonce.
    rewrite (handleMessage_frame_other env' event' m' b') by done.
    assert (nonce_gate m' b' = true) as ->; [|done].
    apply nonce_gate_true. destruct Hsealed' as [? ?]. split; congruence.
Qed.

End Properties.

(** ** Worked examples *)

(** C8 (the code departs from the claim). A popup is tracked and open; the
    frame asks for a new one and the browser refuses it. The synthetic
    result is sent and the error callback is called once, but the old popup,
    now closed and no longer polled, is still the tracked one. *)
Theorem openAuthPopup_blocked_keeps_closed_popup :
  let e := Demo.env "r2" None in
  let blocked := Demo.handle e (Demo.openPopup "abc") Demo.withPopup in
  popup (state Demo.withPopup) = Some Demo.popupWindow
  ∧ closed Demo.withPopup Demo.popupWindow = false
  ∧ blocked.2 =
      [ClearInterval 7; WindowClose Demo.popupWindow;
       WindowOpen {| url_base := "https://play.venyu.ch/embed/auth/popup";
                     url_parentOrigin := "https://club.example";
                     url_nonce := Some "abc";
                     url_embedSessionId := "es_1" |}
         "venyu-auth" "width=480,height=640";
       PostMessage Demo.frameWindow
         (buildMessage e "venyu:auth:popup-result" blocked_payload "abc")
         "https://play.venyu.ch";
       OnError ERR_POPUP_BLOCKED]
  ∧ popup (state blocked.1) = Some Demo.popupWindow
  ∧ closed blocked.1 Demo.popupWindow = true
  ∧ popupPollIntervalId blocked.1 = None
  ∧ timers blocked.1 = [].
Proof. vm_compute. repeat split; reflexivity. Qed.

(** C2 as the specification words it fails. After the handshake with nonce
    abc the frame sends a well-formed message of a type the switch does not
    know, with nonce abc: the handshake is complete and the nonce is the
    session nonce, yet no handler is called, and the bridge does what it
    does with a message it drops. *)
Lemma unknown_type_passes_gate_without_handler :
  let e := Demo.env "r2" None in
  let event := Samples.future "abc" in
  let m := Demo.message "venyu:future:thing" "abc" (Fin 6) ∅ in
  validateIncomingMessage (data event) = Some m
  ∧ isFromIframe event Demo.shaken = true
  ∧ isFromPopup event Demo.shaken = false
  ∧ msg_type m ≠ "venyu:ready"
  ∧ sealed (msg_nonce m) Demo.shaken
  ∧ routed m Demo.shaken = None
  ∧ Demo.handle e event Demo.shaken = (Demo.shaken, [])
  ∧ ¬ dispatched_iff_gate m Demo.shaken.
Proof.
  assert (sealed "abc" Demo.shaken) as Hs by (split; vm_compute; reflexivity).
  repeat split; try (vm_compute; reflexivity); try discriminate.
  intros [_ H]. destruct (H Hs) as [r Hr]. vm_compute in Hr. discriminate.
Qed.

(** C9 as the specification words it fails. A resize to +Infinity on a live
    bridge: +Infinity is a number and is not negative, so the guard lets it
    through, but [Infinitypx] is no height and the frame keeps the height
    it had; it is not set to the ceiling of the value. *)
Lemma handleResize_Infinity_keeps_height :
  let b := Demo.shaken in
  destroyed (state b) = false
  ∧ nonneg_number PosInf
  ∧ styleHeight b = CssInitial "600px"
  ∧ handleResize (JNum PosInf) b = (b, [])
  ∧ Demo.handle (Demo.env "r2" None) (Demo.resize "abc" (JNum PosInf)) b = (b, [])
  ∧ ¬ resize_as_specified (JNum PosInf) b.
Proof.
  repeat split; try (vm_compute; reflexivity).
  intros [_ H]. specialize (H eq_refl PosInf eq_refl I).
  vm_compute in H. discriminate.
Qed.

(** The scenarios of the specification, run on the code. *)
Example scenario_ready_abc :
  let e := Demo.env "r0" None in
  Demo.handle e (Demo.ready "abc") Demo.fresh =
    (Demo.shaken, [PostMessage Demo.frameWindow (@initMessage Demo.host e "abc")
                     "https://play.venyu.ch"; OnReady])
  ∧ readyPromise Demo.shaken = Fulfilled.
Proof. vm_compute. split; reflexivity. Qed.

Example scenario_popup_blocked_first_time :
  let e := Demo.env "r2" None in
  let blocked := Demo.handle e (Demo.openPopup "abc") Demo.shaken in
  count is_OnError blocked.2 = 1
  ∧ count is_PostMessage blocked.2 = 1
  ∧ popup (state blocked.1) = None.
Proof. vm_compute. repeat split; reflexivity. Qed.

Example scenario_popup_result_relayed :
  let e := Demo.env "r3" None in
  let relayed := Demo.handle e (Demo.popupResult "abc" "tok_1") Demo.withPopup in
  relayed.2 =
    [PostMessage Demo.frameWindow
       (buildMessage e "venyu:auth:popup-result" (<["resultToken" := JStr "tok_1"]> ∅) "abc")
       "https://play.venyu.ch";
     ClearInterval 7; WindowClose Demo.popupWindow]
  ∧ popup (state relayed.1) = None.
Proof. vm_compute. split; reflexivity. Qed.

Example scenario_resize :
  styleHeight (Demo.handle (Demo.env "r2" None)
                 (Demo.resize "abc" (JNum (Fin (7 # 2)))) Demo.shaken).1
    = CssPx (Fin 4)
  ∧ styleHeight (Demo.handle (Demo.env "r2" None)
                   (Demo.resize "abc" (JNum (Fin (-3)))) Demo.shaken).1
    = CssInitial "600px"
  ∧ styleHeight (Demo.handle (Demo.env "r2" None)
                   (Demo.resize "abc" (JStr "12")) Demo.shaken).1
    = CssInitial "600px".
Proof. vm_compute. repeat split; reflexivity. Qed.

(** NaN passes the guard of [handleResize], and the frame discards
    [NaNpx]: the height stays. *)
Example scenario_resize_NaN :
  Demo.handle (Demo.env "r2" None) (Demo.resize "abc" (JNum NaN)) Demo.shaken
    = (Demo.shaken, [])
  ∧ styleHeight Demo.shaken = CssInitial "600px".
Proof. vm_compute. split; reflexivity. Qed.

(** ** The theorems at concrete inputs *)

Lemma reachable_shaken : @reachable Demo.host Demo.shaken.
Proof.
  exists (Some Demo.frameWindow), (CssInitial "600px"), ∅,
    [Deliver (Demo.env "r0" None) (Demo.ready "abc")].
  vm_compute. reflexivity.
Defined.

Lemma reachable_withPopup : @reachable Demo.host Demo.withPopup.
Proof.
  exists (Some Demo.frameWindow), (CssInitial "600px"), ∅,
    [Deliver (Demo.env "r0" None) (Demo.ready "abc");
     Deliver (Demo.env "r1" (Some Demo.popupWindow)) (Demo.openPopup "abc")].
  vm_compute. reflexivity.
Defined.

(** Three ready signals, with nonces abc, xyz and abc: the session nonce is
    abc and the three together do what the first does alone. *)
Lemma ready_signals_complete_handshake_once_witness :
  let e := Demo.env "r0" None in
  let later := [(Demo.env "r1" None, Demo.ready "xyz");
                (Demo.env "r2" None, Demo.ready "abc")] in
  let first := Demo.handle e (Demo.ready "abc") Demo.fresh in
  sealed "abc" first.1
  ∧ readyPromise first.1 = Fulfilled
  ∧ Demo.exec (deliveries ((e, Demo.ready "abc") :: later)) Demo.fresh = first.
Proof.
  intros e later first.
  destruct (@ready_signals_complete_handshake_once Demo.host e (Demo.ready "abc")
              (Demo.message "venyu:ready" "abc" (Fin 5) ∅) later Demo.fresh
              Demo.frameWindow)
    as (H1 & H2 & _ & _ & _ & _ & _ & H3 & _).
  - apply reachable_created.
  - split; reflexivity.
  - reflexivity.
  - vm_compute. reflexivity.
  - reflexivity.
  - vm_compute. reflexivity.
  - reflexivity.
  - repeat constructor.
    + exists (Demo.message "venyu:ready" "xyz" (Fin 5) ∅).
      split; vm_compute; reflexivity.
    + exists (Demo.message "venyu:ready" "abc" (Fin 5) ∅).
      split; vm_compute; reflexivity.
  - repeat split; assumption.
Defined.

(** After the handshake with nonce abc, a navigate message with nonce abc
    scrolls the frame into view. *)
Lemma handleMessage_frame_nonce_gate_witness :
  let e := Demo.env "r2" None in
  Demo.handle e (Demo.navigate "abc") Demo.shaken = (Demo.shaken, [ScrollIntoView]).
Proof.
  intros e.
  destruct (@handleMessage_frame_nonce_gate Demo.host e (Demo.navigate "abc")
              (Demo.message "venyu:navigate" "abc" (Fin 6) ∅) Demo.shaken)
    as (H & _).
  - reflexivity.
  - vm_compute. reflexivity.
  - vm_compute. reflexivity.
  - vm_compute. reflexivity.
  - vm_compute. reflexivity.
  - simpl. discriminate.
  - unfold Demo.handle. rewrite H. vm_compute. reflexivity.
Defined.

(** A perfect ready signal that claims another origin is dropped. *)
Lemma handleMessage_origin_mismatch_witness :
  let event := {| origin := "https://evil.example";
                  source := Some Demo.frameWindow;
                  data := Demo.wire "venyu:ready" "abc" (JNum (Fin 5)) (JObj ∅) |} in
  Demo.handle (Demo.env "r0" None) event Demo.fresh = (Demo.fresh, []).
Proof.
  intros event.
  apply (@handleMessage_origin_mismatch Demo.host).
  vm_compute. discriminate.
Defined.

(** The popup's result with the session nonce is handed to the popup
    handler. *)
Lemma handleMessage_popup_gate_witness :
  let e := Demo.env "r3" None in
  Demo.handle e (Demo.popupResult "abc" "tok_1") Demo.withPopup =
    @handlePopupMessage Demo.host e
      (Demo.message "venyu:auth:popup-result" "abc" (Fin 8)
         (<["resultToken" := JStr "tok_1"]> ∅))
      Demo.withPopup.
Proof.
  intros e.
  apply (@handleMessage_popup_gate Demo.host e (Demo.popupResult "abc" "tok_1")
           Demo.withPopup).
  - vm_compute. reflexivity.
  - reflexivity.
  - vm_compute. reflexivity.
  - vm_compute. reflexivity.
  - reflexivity.
  - reflexivity.
Defined.

(** A message with protocol version 2 from the frame is dropped. *)
Lemma handleMessage_malformed_witness :
  let event :=
    Demo.fromFrame
      (JObj (<["type" := JStr "venyu:navigate"]> (<["version" := JNum (Fin 2)]>
            (<["requestId" := JStr "req-1"]> (<["nonce" := JStr "abc"]>
            (<["timestamp" := JNum (Fin 6)]> (<["payload" := JObj ∅]> ∅))))))) in
  Demo.handle (Demo.env "r2" None) event Demo.shaken = (Demo.shaken, []).
Proof.
  intros event.
  apply (@handleMessage_malformed Demo.host).
  apply mal_version. intros (q & Hq & Hone).
  vm_compute in Hq. injection Hq as <-. vm_compute in Hone. discriminate.
Defined.

(** Destroying the bridge that tracks an open popup, twice. *)
Lemma destroy_idempotent_witness :
  let once := destroy Demo.withPopup in
  destroy once.1 = (once.1, [])
  ∧ Demo.exec [CallDestroy; CallDestroy] Demo.withPopup = once
  ∧ destroyed (state once.1) = true.
Proof.
  intros once.
  destruct (@destroy_idempotent Demo.host Demo.withPopup reachable_withPopup)
    as (H1 & H2 & H3 & _).
  repeat split; assumption.
Defined.

(** The ready signal with nonce abc reaches a bridge whose frame has no
    content window. *)
Lemma ready_without_contentWindow_witness :
  let failed := Demo.handle (Demo.env "r0" None) (Demo.orphanReady "abc") Demo.detached in
  failed.2 = [OnError ERR_NO_WINDOW]
  ∧ readyPromise failed.1 = Rejected ERR_NO_WINDOW
  ∧ sealed "abc" failed.1.
Proof.
  intros failed.
  destruct (@ready_without_contentWindow Demo.host (Demo.env "r0" None)
              (Demo.orphanReady "abc")
              (Demo.message "venyu:ready" "abc" (Fin 5) ∅) Demo.detached)
    as (H1 & H2 & H3 & _).
  - apply reachable_created.
  - split; reflexivity.
  - reflexivity.
  - vm_compute. reflexivity.
  - reflexivity.
  - vm_compute. reflexivity.
  - reflexivity.
  - repeat split; assumption.
Defined.

(** ** More about the router, the popup and the timers *)

Section More.

Context {host : Host}.

(** X1. A message whose source is neither the frame's window nor the
    tracked, open popup is dropped, whatever its origin and data. *)
Theorem handleMessage_foreign_source env event b :
  source event ≠ contentWindow b →
  (∀ p, popup (state b) = Some p → closed b p = false → source event ≠ Some p) →
  handleMessage env event b = (b, []).
Proof.
  intros Hf Hp. unfold handleMessage.
  assert (isFromIframe event b = false) as ->
    by (unfold isFromIframe, opt_eqb; by apply bool_decide_eq_false_2).
  assert (isFromPopup event b = false) as ->.
  { unfold isFromPopup, opt_eqb. destruct (popup (state b)) as [p|]; [|done].
    destruct (closed b p) eqn:Ec; [done|]. simpl.
    apply bool_decide_eq_false_2. by apply Hp. }
  simpl. by repeat case_match.
Qed.

Lemma clearPopupPoll_timers b :
  poll_owns_timers b → timers (clearPopupPoll b).1 = [].
Proof.
  intros Ht. unfold poll_owns_timers in Ht.
  unfold clearPopupPoll, clearInterval. unfold_glue.
  destruct (popupPollIntervalId b) as [id|]; [|done].
  destruct Ht as (w & -> & _). simpl.
  by rewrite filter_cons_False, filter_nil by (simpl; tauto).
Qed.

Lemma clearPopupPoll_styleHeight b : styleHeight (clearPopupPoll b).1 = styleHeight b.
Proof. unfold clearPopupPoll, clearInterval. unfold_glue. by repeat case_match. Qed.

Lemma closeOpenPopup_timers b : timers (closeOpenPopup b).1 = timers b.
Proof. unfold closeOpenPopup. by repeat case_match. Qed.

Lemma closeOpenPopup_pollId b :
  popupPollIntervalId (closeOpenPopup b).1 = popupPollIntervalId b.
Proof. unfold closeOpenPopup. by repeat case_match. Qed.

Lemma closeOpenPopup_styleHeight b : styleHeight (closeOpenPopup b).1 = styleHeight b.
Proof. unfold closeOpenPopup. by repeat case_match. Qed.

(** Cancelling the poll and closing the popup, as three handlers do. *)
Lemma clear_then_close b :
  poll_owns_timers b →
  let b2 := (closeOpenPopup (clearPopupPoll b).1).1 in
  session b2 = session b
  ∧ popup (state b2) = popup (state b)
  ∧ popupPollIntervalId b2 = None
  ∧ timers b2 = []
  ∧ contentWindow b2 = contentWindow b
  ∧ styleHeight b2 = styleHeight b.
Proof.
  intros Ht b2. unfold b2.
  rewrite closeOpenPopup_session, clearPopupPoll_session, closeOpenPopup_popup,
    clearPopupPoll_popup, closeOpenPopup_pollId, clearPopupPoll_pollId,
    closeOpenPopup_timers, closeOpenPopup_contentWindow,
    clearPopupPoll_contentWindow, closeOpenPopup_styleHeight,
    clearPopupPoll_styleHeight.
  by rewrite clearPopupPoll_timers.
Qed.

Lemma session_destroyed b b' :
  session b' = session b → destroyed (state b') = destroyed (state b).
Proof. unfold session. by intros [= _ _ -> _ _]. Qed.

Lemma handlePopupMessage_fields env m b :
  timer_inv b →
  let b' := (handlePopupMessage env m b).1 in
  popup (state b') = None ∧ popupPollIntervalId b' = None ∧ timers b' = []
  ∧ contentWindow b' = contentWindow b ∧ styleHeight b' = styleHeight b.
Proof.
  intros Ht b'. unfold b', handlePopupMessage. rewrite !andThen_fst.
  set (b1 := (_ b).1).
  assert (b1 = b) as ->.
  { unfold b1. repeat case_match; try done. apply sendToIframe_bridge. }
  destruct (clear_then_close b (proj1 Ht)) as (_ & _ & ? & ? & ? & ?).
  unfold update. by simpl.
Qed.

Lemma openAuthPopup_fields env b :
  timer_inv b →
  destroyed (state b) = false →
  let b' := (openAuthPopup env b).1 in
  timer_inv b' ∧ contentWindow b' = contentWindow b ∧ styleHeight b' = styleHeight b.
Proof.
  intros Ht Hd b'. unfold b', openAuthPopup. rewrite Hd, !andThen_fst.
  destruct (clear_then_close b (proj1 Ht)) as (Hs & Hp & Hpoll & Htm & Hcw & Hsh).
  set (b2 := (closeOpenPopup (clearPopupPoll b).1).1) in *.
  pose proof (session_destroyed _ _ Hs) as Hd2. rewrite Hd in Hd2.
  assert (timer_inv b2) as Ht2.
  { split; [unfold poll_owns_timers; by rewrite Hpoll|]. by rewrite Hd2. }
  clearbody b2.
  destruct (URL_origin _); [|done].
  rewrite andThen_fst. unfold perform at 1. cbn [fst].
  destruct (env_open env) as [w|].
  - unfold_glue. unfold timer_inv, poll_owns_timers. simpl. rewrite Htm.
    split; [split; [by exists w | intros; congruence] | by split].
  - unfold call, perform. rewrite !andThen_fst, !sendToIframe_bridge. by simpl.
Qed.

Lemma handleResize_fields h b :
  let b' := (handleResize h b).1 in
  state b' = state b ∧ popupPollIntervalId b' = popupPollIntervalId b
  ∧ timers b' = timers b ∧ contentWindow b' = contentWindow b.
Proof. unfold handleResize, assignHeight. by repeat case_match. Qed.

Lemma dispatch_fields env m b :
  timer_inv b →
  destroyed (state b) = false →
  let b' := (dispatch env m b).1 in
  timer_inv b' ∧ contentWindow b' = contentWindow b.
Proof.
  intros Ht Hd b'. unfold b', dispatch.
  repeat case_match; try done; unfold_glue; simpl; try done.
  - destruct (handleResize_fields (JNum n) b) as (Hs & Hp & Htm & Hcw).
    split; [|done]. unfold timer_inv, poll_owns_timers. by rewrite Hs, Hp, Htm.
  - by destruct (openAuthPopup_fields env b Ht Hd) as (? & ? & _).
Qed.

Lemma handleReadyMessage_fields env m b :
  let b' := (handleReadyMessage env m b).1 in
  popup (state b') = popup (state b)
  ∧ destroyed (state b') = destroyed (state b)
  ∧ popupPollIntervalId b' = popupPollIntervalId b
  ∧ timers b' = timers b ∧ contentWindow b' = contentWindow b.
Proof.
  unfold handleReadyMessage. unfold_glue. simpl.
  repeat case_match; simpl; done.
Qed.

Lemma handleMessage_destroyed env event b :
  destroyed (state b) = true → handleMessage env event b = (b, []).
Proof. intros E. unfold handleMessage. by rewrite E. Qed.

Lemma handleMessage_timer_inv env event b :
  timer_inv b →
  timer_inv (handleMessage env event b).1
  ∧ contentWindow (handleMessage env event b).1 = contentWindow b.
Proof.
  intros Ht.
  destruct (destroyed (state b)) eqn:Hd.
  { by rewrite handleMessage_destroyed. }
  destruct (handleMessage_cases env event b)
    as [->|[(m & _ & _ & _ & ->)|[(m & _ & _ & ->)|(m & _ & _ & ->)]]].
  - done.
  - destruct (handlePopupMessage_fields env m b Ht) as (Hp & Hpoll & Htm & Hcw & _).
    split; [|done]. unfold timer_inv, poll_owns_timers. rewrite Hp, Hpoll, Htm. done.
  - destruct (handleReadyMessage_fields env m b) as (Hp & Hd' & Hpoll & Htm & Hcw).
    split; [|done]. unfold timer_inv, poll_owns_timers. by rewrite Hp, Hd', Hpoll, Htm.
  - by apply dispatch_fields.
Qed.

Lemma pollPopup_fields w b :
  timer_inv b →
  closed b w = true →
  let b' := (pollPopup w b).1 in
  popup (state b') = None ∧ popupPollIntervalId b' = None ∧ timers b' = [].
Proof.
  intros Ht Hc b'. unfold b', pollPopup. rewrite Hc, andThen_fst.
  unfold update. simpl.
  rewrite clearPopupPoll_pollId, clearPopupPoll_timers; [done|apply Ht].
Qed.

Lemma step_timer_inv a b : timer_inv b → timer_inv (step a b).1.
Proof.
  intros Ht. destruct a as [env event|id| |env upd|w|cw]; simpl.
  - destruct (listening b); [|done]. by apply handleMessage_timer_inv.
  - destruct (list_find _ _) as [[? [? w]]|]; [|done].
    destruct (closed b w) eqn:Hc.
    + destruct (pollPopup_fields w b Ht Hc) as (Hp & Hpoll & Htm).
      pose proof (session_destroyed _ _ (pollPopup_session w b)) as Hd.
      unfold timer_inv, poll_owns_timers. by rewrite Hp, Hpoll, Htm.
    + unfold pollPopup. by rewrite Hc.
  - destruct (destroyed (state b)) eqn:Hd.
    { by rewrite destroy_dead. }
    destruct (destroy_live b Hd) as (_ & Hp & Hpoll).
    unfold timer_inv, poll_owns_timers. rewrite Hp, Hpoll. split; [|done].
    unfold destroy. rewrite Hd, !andThen_fst.
    unfold rejectReady, settle, update. simpl.
    set (b1 := set_listening false _).
    assert (poll_owns_timers b1) as Ht1 by apply Ht.
    destruct (clear_then_close b1 Ht1) as (_ & _ & _ & Htm & _).
    by destruct (readyPromise _).
  - by rewrite sendConfigUpdate_bridge.
  - done.
  - done.
Qed.

Lemma run_timer_inv acts b : timer_inv b → timer_inv (run acts b).1.
Proof.
  revert b. induction acts as [|a acts IH]; intros b I; [done|].
  cbn [run]. rewrite andThen_fst. by apply IH, step_timer_inv.
Qed.

Lemma reachable_timer_inv b : reachable b → timer_inv b.
Proof.
  intros (cw & h & cl & acts & ->). by apply run_timer_inv.
Qed.

(** X2. On every bridge that can exist, the live intervals are exactly the
    tracked poll (so there is at most one) and it polls the tracked popup;
    a destroyed bridge has no live interval and tracks no popup. *)
Theorem reachable_timers b :
  reachable b →
  match popupPollIntervalId b with
  | Some id => ∃ w, timers b = [(id, w)] ∧ popup (state b) = Some w
  | None => timers b = []
  end
  ∧ (destroyed (state b) = true →
     timers b = [] ∧ popupPollIntervalId b = None ∧ popup (state b) = None).
Proof.
  intros (cw & h & cl & acts & ->).
  assert (timer_inv (run acts (createMessagingBridge cw h cl)).1) as [H1 H2]
    by by apply run_timer_inv.
  unfold poll_owns_timers in H1.
  split; [done|]. intros Hd. destruct (H2 Hd) as [Hp ?].
  rewrite Hp in H1. done.
Qed.

End More.

Section Lifecycle.

Context {host : Host}.

Lemma step_destroyed_inert a b :
  destroyed (state b) = true → timers b = [] →
  (step a b).2 = [] ∧ bridge_core (step a b).1 = bridge_core b.
Proof.
  intros Hd Ht. destruct a as [env event|id| |env upd|w|cw]; simpl.
  - destruct (listening b); [|done]. by rewrite handleMessage_destroyed.
  - by rewrite Ht.
  - by rewrite destroy_dead.
  - unfold sendConfigUpdate. by rewrite Hd.
  - done.
  - done.
Qed.

(** X3. A destroyed bridge is inert: whatever happens to it afterwards
    (messages, timer ticks, API calls, windows closing, the frame changing)
    performs no effect and changes nothing the bridge owns. *)
Theorem destroyed_bridge_inert acts b :
  reachable b →
  destroyed (state b) = true →
  (run acts b).2 = [] ∧ bridge_core (run acts b).1 = bridge_core b.
Proof.
  intros Hr Hd.
  assert (timers b = []) as Htm.
  { destruct (reachable_timer_inv b Hr) as [Hown Hdead].
    destruct (Hdead Hd) as [Hpoll _].
    unfold poll_owns_timers in Hown. by rewrite Hpoll in Hown. }
  clear Hr. revert b Hd Htm.
  induction acts as [|a acts IH]; intros b Hd Htm; [done|].
  cbn [run]. rewrite andThen_fst, andThen_snd.
  destruct (step_destroyed_inert a b Hd Htm) as [He Hc].
  pose proof Hc as Hc'. unfold bridge_core in Hc'.
  injection Hc' as Hs _ _ _ Htm' _.
  destruct (IH (step a b).1) as [He' Hc''].
  - by rewrite Hs.
  - by rewrite Htm'.
  - rewrite He, He'. split; [done|]. by rewrite Hc''.
Qed.

Lemma good_post_transfer b b' e :
  session b' = session b →
  contentWindow b' = contentWindow b →
  good_post b e → good_post b' e.
Proof.
  unfold session. intros [= Hn Hh _ _ _] Hcw.
  destruct e; try done. unfold good_post, sealed.
  by rewrite Hn, Hh, Hcw.
Qed.

Lemma Forall_good_post_transfer b b' l :
  session b' = session b →
  contentWindow b' = contentWindow b →
  Forall (good_post b) l → Forall (good_post b') l.
Proof.
  intros Hs Hc Hl. eapply Forall_impl; [done|].
  intros e. by apply good_post_transfer.
Qed.

Lemma poll_effects_good b b' : Forall (good_post b') (poll_effects b).
Proof. unfold poll_effects. case_match; repeat constructor. Qed.

Lemma close_effects_good b b' : Forall (good_post b') (close_effects b).
Proof. unfold close_effects. repeat case_match; repeat constructor. Qed.

Lemma call_good present e b b' :
  is_PostMessage e = false → Forall (good_post b') (call present e b).2.
Proof.
  intros He. unfold call, perform. destruct present; simpl; [|constructor].
  constructor; [|constructor]. by destruct e.
Qed.

Lemma sendToIframe_good env ty p b :
  inv b →
  String.prefix MESSAGE_PREFIX ty = true →
  Forall (good_post b) (sendToIframe env ty p b).2.
Proof.
  intros [_ I2 _ I4 _] Hty. unfold sendToIframe.
  destruct (destroyed (state b)); [constructor|].
  destruct (falsy (nonce (state b))) eqn:Hf; [constructor|].
  destruct (contentWindow b) as [cw|] eqn:Hcw; [|constructor].
  constructor; [|constructor]. simpl.
  destruct (nonce (state b)) as [n|] eqn:Hn; [|done]. simpl in *.
  destruct (handshakeComplete (state b)) eqn:Hh.
  - repeat split; try done. by apply str_empty_false.
  - by destruct (I2 eq_refl).
Qed.

Lemma inv_transfer b b' :
  session b' = session b → popup (state b') = popup (state b) → inv b → inv b'.
Proof. intros Hs Hp. apply inv_same_session; [done|by left]. Qed.

Lemma handlePopupMessage_good env m b :
  inv b →
  Forall (good_post (handlePopupMessage env m b).1) (handlePopupMessage env m b).2.
Proof.
  intros I.
  eapply Forall_good_post_transfer with (b := b);
    [apply handlePopupMessage_session| |].
  { unfold handlePopupMessage. rewrite !andThen_fst.
    set (b1 := (_ b).1).
    assert (b1 = b) as ->.
    { unfold b1. repeat case_match; try done. apply sendToIframe_bridge. }
    unfold update. simpl.
    by rewrite closeOpenPopup_contentWindow, clearPopupPoll_contentWindow. }
  unfold handlePopupMessage. rewrite !andThen_snd.
  rewrite clearPopupPoll_snd, closeOpenPopup_snd.
  repeat apply Forall_app_2; try apply poll_effects_good;
    try apply close_effects_good; try (unfold update; by constructor).
  repeat case_match; try (unfold skip; by constructor).
  by apply sendToIframe_good.
Qed.

Lemma openAuthPopup_good env b :
  inv b →
  Forall (good_post (openAuthPopup env b).1) (openAuthPopup env b).2.
Proof.
  intros I.
  assert (contentWindow (openAuthPopup env b).1 = contentWindow b) as Hcw.
  { unfold openAuthPopup. destruct (destroyed (state b)); [done|].
    rewrite !andThen_fst.
    set (b2 := (closeOpenPopup (clearPopupPoll b).1).1).
    assert (contentWindow b2 = contentWindow b) as <-
      by (unfold b2; by rewrite closeOpenPopup_contentWindow, clearPopupPoll_contentWindow).
    clearbody b2. destruct (URL_origin _); [|done].
    rewrite andThen_fst. unfold perform at 1. cbn [fst].
    destruct (env_open env).
    - by unfold_glue.
    - unfold call, perform. rewrite !andThen_fst, !sendToIframe_bridge. by simpl. }
  eapply Forall_good_post_transfer with (b := b);
    [apply openAuthPopup_session|done|].
  unfold openAuthPopup. destruct (destroyed (state b)); [constructor|].
  rewrite !andThen_snd, clearPopupPoll_snd, closeOpenPopup_snd.
  set (b2 := (closeOpenPopup (clearPopupPoll b).1).1).
  assert (session b2 = session b) as Hs
    by (unfold b2; by rewrite closeOpenPopup_session, clearPopupPoll_session).
  assert (popup (state b2) = popup (state b)) as Hp
    by (unfold b2; by rewrite closeOpenPopup_popup, clearPopupPoll_popup).
  assert (contentWindow b2 = contentWindow b) as Hcw2
    by (unfold b2; by rewrite closeOpenPopup_contentWindow, clearPopupPoll_contentWindow).
  pose proof (inv_transfer _ _ Hs Hp I) as I2.
  clearbody b2.
  repeat apply Forall_app_2; try apply poll_effects_good; try apply close_effects_good.
  destruct (URL_origin _); [|repeat constructor].
  rewrite andThen_snd. apply Forall_app_2; [repeat constructor|].
  unfold perform at 1. cbn [fst].
  destruct (env_open env).
  - unfold_glue. simpl. repeat constructor.
  - rewrite andThen_snd. apply Forall_app_2.
    + eapply Forall_good_post_transfer with (b := b2); [done|done|].
      by apply sendToIframe_good.
    + by apply call_good.
Qed.

Lemma handleResize_snd h b : (handleResize h b).2 = [].
Proof. unfold handleResize, assignHeight. by repeat case_match. Qed.

Lemma dispatch_good env m b :
  inv b →
  Forall (good_post (dispatch env m b).1) (dispatch env m b).2.
Proof.
  intros I. unfold dispatch.
  repeat case_match; try (unfold skip; by constructor);
    try (by apply call_good); try (unfold perform; repeat constructor).
  - rewrite handleResize_snd. constructor.
  - by apply openAuthPopup_good.
Qed.

Lemma handleReadyMessage_good env m b :
  msg_nonce m ≠ "" →
  Forall (good_post (handleReadyMessage env m b).1) (handleReadyMessage env m b).2.
Proof.
  intros Hn.
  destruct (handshakeComplete (state b)) eqn:Hh.
  { rewrite handleReadyMessage_done by done. constructor. }
  destruct (contentWindow b) as [cw|] eqn:Hcw.
  - rewrite (handleReadyMessage_first _ _ _ cw) by done.
    unfold resolveReady, settle, update. simpl.
    constructor.
    + unfold sealed. destruct (readyPromise b); simpl; by repeat split.
    + destruct (onReady (callbacks config)); repeat constructor.
  - rewrite handleReadyMessage_detached by done. cbn [snd].
    destruct (onError (callbacks config)); repeat constructor.
Qed.

Lemma handleMessage_good env event b :
  inv b →
  Forall (good_post (handleMessage env event b).1) (handleMessage env event b).2.
Proof.
  intros I.
  destruct (handleMessage_cases env event b)
    as [->|[(m & _ & _ & _ & ->)|[(m & Hv & _ & ->)|(m & _ & _ & ->)]]].
  - constructor.
  - by apply handlePopupMessage_good.
  - apply handleReadyMessage_good. by eapply validateIncomingMessage_nonce.
  - by apply dispatch_good.
Qed.

Lemma step_good a b :
  inv b → Forall (good_post (step a b).1) (step a b).2.
Proof.
  intros I. destruct a as [env event|id| |env upd|w|cw]; simpl;
    try by constructor.
  - destruct (listening b); [by apply handleMessage_good|constructor].
  - destruct (list_find _ _) as [[? [? w]]|]; [|constructor].
    unfold pollPopup. case_match; [|constructor].
    rewrite andThen_snd, clearPopupPoll_snd. unfold update. simpl.
    rewrite app_nil_r. apply poll_effects_good.
  - destruct (destroyed (state b)) eqn:Hd.
    { rewrite destroy_dead by done. constructor. }
    rewrite destroy_live_effects by done.
    constructor; [done|].
    apply Forall_app_2; [apply poll_effects_good|apply close_effects_good].
  - rewrite sendConfigUpdate_bridge. unfold sendConfigUpdate.
    repeat case_match; try constructor; by apply sendToIframe_good.
Qed.

(** X4. Every message a bridge posts, over any course of events, goes to
    the expected origin, has the protocol version and a type in the venyu
    namespace, and carries a non-empty nonce, which is the nonce of the
    completed handshake; so nothing is posted before the handshake. *)
Theorem posts_well_addressed acts b w m o :
  reachable b →
  PostMessage w m o ∈ (run acts b).2 →
  o = expectedOrigin
  ∧ msg_version m = PROTOCOL_VERSION
  ∧ String.prefix MESSAGE_PREFIX (msg_type m) = true
  ∧ msg_nonce m ≠ ""
  ∧ handshakeComplete (state (run acts b).1) = true
  ∧ nonce (state (run acts b).1) = Some (msg_nonce m).
Proof.
  intros Hr%reachable_inv. revert b Hr.
  induction acts as [|a acts IH]; intros b I Hin.
  { by apply elem_of_nil in Hin. }
  cbn [run] in *. rewrite andThen_fst. rewrite andThen_snd in Hin.
  apply elem_of_app in Hin as [Hin|Hin].
  - pose proof (step_good a b I) as Hg.
    rewrite Forall_forall in Hg. specialize (Hg _ Hin).
    destruct Hg as (Ho & _ & Hv & Hp & Hs & Hn).
    destruct (run_sealed _ acts _ Hs) as [? ?]. done.
  - apply IH; [by apply step_inv|done].
Qed.

(** X5. A message made by [buildMessage] passes [validateIncomingMessage]
    unchanged, provided its type is in the venyu namespace, the request id
    and the nonce are not empty and the clock is positive. *)
Theorem buildMessage_validates env ty p n :
  String.prefix MESSAGE_PREFIX ty = true →
  env_requestId env ≠ "" →
  n ≠ "" →
  positive_number (env_now env) →
  validateIncomingMessage (toWire (buildMessage env ty p n)) =
    Some (buildMessage env ty p n).
Proof.
  intros Hty Hr Hn Hts. apply validateIncomingMessage_Some.
  eexists. split; [reflexivity|].
  unfold get. simpl.
  repeat split; try done; try by simplify_map_eq.
  apply num_leb_zero_false. by left.
Qed.

End Lifecycle.

Section Popup.

Context {host : Host}.

Lemma reachable_nonce b n :
  reachable b → nonce (state b) = Some n →
  n ≠ "" ∧ handshakeComplete (state b) = true.
Proof.
  intros [_ I2 _ I4 _]%reachable_inv Hn.
  destruct (handshakeComplete (state b)) eqn:Hh.
  - destruct (I4 eq_refl) as (n' & Hn' & ?). split; congruence.
  - destruct (I2 eq_refl). congruence.
Qed.

Lemma sendToIframe_live env ty p b n cw :
  destroyed (state b) = false →
  nonce (state b) = Some n → n ≠ "" →
  contentWindow b = Some cw →
  sendToIframe env ty p b = (b, [PostMessage cw (buildMessage env ty p n) expectedOrigin]).
Proof.
  intros Hd Hn Hne Hcw. unfold sendToIframe, falsy.
  apply str_empty_false in Hne. by rewrite Hd, Hn, Hne, Hcw.
Qed.

Lemma closeOpenPopup_closes b w :
  popup (state b) = Some w → closed (closeOpenPopup b).1 w = true.
Proof.
  intros Hp. unfold closeOpenPopup. rewrite Hp.
  destruct (closed b w) eqn:Hc; [done|].
  unfold closed. simpl. apply bool_decide_eq_true_2. set_solver.
Qed.

Lemma closeOpenPopup_keeps_closed b w :
  closed b w = true → closed (closeOpenPopup b).1 w = true.
Proof.
  intros Hc. unfold closeOpenPopup. repeat case_match; try done.
  unfold closed in *. simpl. apply bool_decide_eq_true_2.
  apply bool_decide_eq_true_1 in Hc. set_solver.
Qed.

Lemma closed_after_clear b w : closed (clearPopupPoll b).1 w = closed b w.
Proof. unfold closed. by rewrite clearPopupPoll_closed. Qed.

(** X6. The popup handler on a live bridge with a completed handshake:
    it relays the result token to the frame if and only if the token is a
    non-empty string; in every case it cancels the poll, closes the popup if
    it is still open and forgets it, and leaves the session as it was. *)
Theorem handlePopupMessage_relays_and_closes env m b n cw :
  reachable b →
  destroyed (state b) = false →
  nonce (state b) = Some n →
  contentWindow b = Some cw →
  let r := handlePopupMessage env m b in
  r.2 = relay_effects env m cw n ++ poll_effects b ++ close_effects b
  ∧ popup (state r.1) = None
  ∧ popupPollIntervalId r.1 = None
  ∧ timers r.1 = []
  ∧ (∀ w, popup (state b) = Some w → closed r.1 w = true)
  ∧ session r.1 = session b.
Proof.
  intros Hr Hd Hn Hcw r.
  destruct (reachable_nonce b n Hr Hn) as [Hne _].
  pose proof (reachable_timer_inv b Hr) as Ht.
  destruct (handlePopupMessage_fields env m b Ht) as (Hp & Hpoll & Htm & _).
  split; [|repeat split; try done; [|apply handlePopupMessage_session]].
  - unfold r, handlePopupMessage. rewrite !andThen_snd, ?andThen_fst.
    set (relay := match get (msg_payload m) "resultToken" with
                  | JStr t => _ | _ => _ end).
    assert (relay b = (b, relay_effects env m cw n)) as ->.
    { unfold relay, relay_effects. repeat case_match; try done.
      by apply sendToIframe_live. }
    cbn [fst snd]. rewrite clearPopupPoll_snd, closeOpenPopup_snd,
      close_effects_after_clear. unfold update. simpl.
    by rewrite app_nil_r.
  - intros w Hw. unfold r, handlePopupMessage. rewrite !andThen_fst.
    set (b1 := (_ b).1).
    assert (b1 = b) as ->.
    { unfold b1. repeat case_match; try done. apply sendToIframe_bridge. }
    unfold update. cbn [fst].
    change (closed (closeOpenPopup (clearPopupPoll b).1).1 w = true).
    apply closeOpenPopup_closes. by rewrite clearPopupPoll_popup.
Qed.

(** X7. A popup request that the browser grants, on a live bridge: the poll
    of the previous popup is cancelled and that popup closed, one window is
    opened at the auth address carrying the session nonce and the embed
    session id, and the new window becomes the tracked popup with the one
    live interval polling it. *)
Theorem openAuthPopup_replaces_popup env b w o :
  reachable b →
  destroyed (state b) = false →
  URL_origin (playUrl config +:+ "/embed/auth/popup") = Some o →
  env_open env = Some w →
  let r := openAuthPopup env b in
  r.2 = poll_effects b ++ close_effects b
        ++ [WindowOpen (popupUrl b) "venyu-auth" (env_features env);
            SetInterval (env_timer env) w]
  ∧ popup (state r.1) = Some w
  ∧ popupPollIntervalId r.1 = Some (env_timer env)
  ∧ timers r.1 = [(env_timer env, w)]
  ∧ closed r.1 w = false
  ∧ (∀ old, popup (state b) = Some old → old ≠ w → closed r.1 old = true).
Proof.
  intros Hr Hd Hu Ho r.
  pose proof (reachable_timer_inv b Hr) as [Ht _].
  destruct (clear_then_close b Ht) as (Hs & Hp & Hpoll & Htm & Hcw & _).
  unfold r, openAuthPopup. rewrite Hd, Hu, Ho.
  rewrite !andThen_snd, !andThen_fst, clearPopupPoll_snd, closeOpenPopup_snd,
    close_effects_after_clear.
  set (b2 := (closeOpenPopup (clearPopupPoll b).1).1) in *.
  assert (nonce (state b2) = nonce (state b)) as Hn
    by (unfold session in Hs; by injection Hs).
  unfold_glue. simpl. rewrite Htm, Hn.
  repeat split; try done.
  - unfold closed. simpl. apply bool_decide_eq_false_2.
    rewrite elem_of_difference, elem_of_singleton. tauto.
  - intros old Hold Hne.
    assert (closed b2 old = true) as Hc.
    { unfold b2. apply closeOpenPopup_closes. by rewrite clearPopupPoll_popup. }
    unfold closed in *. simpl. apply bool_decide_eq_true_2.
    apply bool_decide_eq_true_1 in Hc. set_solver.
Qed.

Lemma find_timer id (w : WindowRef) :
  list_find (fun t : TimerId * WindowRef => t.1 = id) [(id, w)] = Some (0, (id, w)).
Proof. cbn. by rewrite decide_True. Qed.

(** X8. The poll of the tracked popup: while the popup is open a tick does
    nothing; once the user has closed the window, the next tick cancels the
    interval and releases the popup, so that no interval stays live. *)
Theorem poll_releases_closed_popup b id w :
  reachable b →
  popupPollIntervalId b = Some id →
  popup (state b) = Some w →
  (closed b w = false → step (PollTick id) b = (b, []))
  ∧ let r := run [UserCloses w; PollTick id] b in
    r.2 = [ClearInterval id]
    ∧ popup (state r.1) = None
    ∧ popupPollIntervalId r.1 = None
    ∧ timers r.1 = []
    ∧ session r.1 = session b.
Proof.
  intros Hr Hpoll Hp.
  pose proof (reachable_timer_inv b Hr) as Hinv.
  pose proof Hinv as [Ht _].
  unfold poll_owns_timers in Ht. rewrite Hpoll in Ht.
  destruct Ht as (w' & Htm & Hp'). rewrite Hp in Hp'. injection Hp' as <-.
  split.
  - intros Hc. simpl. rewrite Htm, find_timer.
    unfold pollPopup. by rewrite Hc.
  - cbn [run]. rewrite !andThen_snd, !andThen_fst.
    unfold skip. cbn [fst snd]. rewrite app_nil_r.
    change (step (UserCloses w) b).2 with (@nil Effect). rewrite app_nil_l.
    set (b1 := (step (UserCloses w) b).1).
    assert (timer_inv b1) as Hinv1 by exact Hinv.
    assert (closed b1 w = true) as Hc1.
    { unfold closed, b1. simpl. apply bool_decide_eq_true_2.
      apply elem_of_union_l. by apply elem_of_singleton. }
    assert (step (PollTick id) b1 = pollPopup w b1) as ->.
    { simpl. rewrite Htm, find_timer. done. }
    destruct (pollPopup_fields w b1 Hinv1 Hc1) as (? & ? & ?).
    repeat split; try done.
    + unfold pollPopup. rewrite Hc1, andThen_snd, clearPopupPoll_snd.
      unfold poll_effects. simpl. by rewrite Hpoll.
    + by rewrite pollPopup_session.
Qed.

End Popup.

Section Dispatch.

Context {host : Host}.

(** X9. After the handshake, a frame message with the session nonce that
    reports a booking, asks for the auth fallback or announces a navigation
    only notifies: the bridge is left as it was; onBooked is called exactly
    when bookingId and status are both strings, onAuthFallbackRequired
    exactly when reason is a string (each when supplied), and a navigation
    scrolls the frame into view. *)
Theorem handleMessage_notifications env event m b :
  destroyed (state b) = false →
  origin event = expectedOrigin →
  isFromIframe event b = true →
  isFromPopup event b = false →
  validateIncomingMessage (data event) = Some m →
  sealed (msg_nonce m) b →
  (msg_type m = "venyu:booked" →
   handleMessage env event b =
     (b, match get (msg_payload m) "bookingId", get (msg_payload m) "status" with
         | JStr bookingId, JStr status =>
           if onBooked (callbacks config) then [OnBooked bookingId status] else []
         | _, _ => []
         end))
  ∧ (msg_type m = "venyu:auth:fallback-required" →
     handleMessage env event b =
       (b, match get (msg_payload m) "reason" with
           | JStr reason =>
             if onAuthFallbackRequired (callbacks config)
             then [OnAuthFallbackRequired reason] else []
           | _ => []
           end))
  ∧ (msg_type m = "venyu:navigate" →
     handleMessage env event b = (b, [ScrollIntoView])).
Proof.
  intros Hd Ho Hi Hp Hv Hs.
  assert (nonce_gate m b = true) as Hg by by apply nonce_gate_true.
  repeat split; intros Ht;
    rewrite (handleMessage_frame_other env event m b) by (try done; by rewrite Ht);
    rewrite Hg; unfold dispatch; rewrite Ht; simpl;
    unfold call, perform, skip; by repeat case_match.
Qed.

(** X10. A structurally valid frame message of a type the bridge does not
    know is ignored, before and after the handshake. *)
Theorem handleMessage_unknown_type env event m b :
  validateIncomingMessage (data event) = Some m →
  isFromPopup event b = false →
  msg_type m ≠ "venyu:ready" →
  msg_type m ∉ known_types →
  handleMessage env event b = (b, []).
Proof.
  intros Hv Hp Hr Hk.
  assert (∀ t, t ∈ known_types → (msg_type m =? t)%string = false) as Hne.
  { intros t Ht. apply String.eqb_neq. intros <-. done. }
  unfold handleMessage. rewrite Hv, Hp.
  apply String.eqb_neq in Hr. rewrite Hr.
  assert (dispatch env m b = (b, [])) as ->.
  { unfold dispatch, known_types in *.
    rewrite !Hne by (repeat (apply elem_of_cons; (by left) || right)).
    done. }
  by repeat case_match.
Qed.


End Dispatch.

Section OnePopup.

Context {host : Host}.

Lemma opened_app l1 l2 : opened (l1 ++ l2) = opened l1 ++ opened l2.
Proof. unfold opened. apply omap_app. Qed.

Lemma opened_poll_effects b : opened (poll_effects b) = [].
Proof. unfold poll_effects. by case_match. Qed.

Lemma opened_close_effects b : opened (close_effects b) = [].
Proof. unfold close_effects. by repeat case_match. Qed.

Lemma opened_sendToIframe env ty p b : opened (sendToIframe env ty p b).2 = [].
Proof. unfold sendToIframe. by repeat case_match. Qed.

Lemma opened_call present e b :
  (∀ id w, e ≠ SetInterval id w) → opened (call present e b).2 = [].
Proof.
  intros He. unfold call, perform. destruct present; [|done].
  destruct e; try done. by edestruct He.
Qed.

Lemma clear_close_tracked_or_closed b w :
  tracked_or_closed b w →
  closed (closeOpenPopup (clearPopupPoll b).1).1 w = true.
Proof.
  intros [Hp|Hc].
  - apply closeOpenPopup_closes. by rewrite clearPopupPoll_popup.
  - apply closeOpenPopup_keeps_closed. by rewrite closed_after_clear.
Qed.

Lemma handlePopupMessage_keeps env m b w :
  tracked_or_closed b w →
  tracked_or_closed (handlePopupMessage env m b).1 w
  ∧ opened (handlePopupMessage env m b).2 = [].
Proof.
  intros Hw. split.
  - right. unfold handlePopupMessage. rewrite !andThen_fst.
    set (b1 := (_ b).1).
    assert (b1 = b) as ->.
    { unfold b1. repeat case_match; try done. apply sendToIframe_bridge. }
    unfold update. cbn [fst].
    change (closed (closeOpenPopup (clearPopupPoll b).1).1 w = true).
    by apply clear_close_tracked_or_closed.
  - unfold handlePopupMessage. rewrite !andThen_snd, !opened_app.
    rewrite clearPopupPoll_snd, closeOpenPopup_snd, opened_poll_effects,
      opened_close_effects.
    unfold update. simpl. rewrite !app_nil_r.
    repeat case_match; try done. apply opened_sendToIframe.
Qed.

Lemma openAuthPopup_keeps env b :
  (∀ w, tracked_or_closed b w → tracked_or_closed (openAuthPopup env b).1 w)
  ∧ (∀ w, w ∈ opened (openAuthPopup env b).2 →
          popup (state (openAuthPopup env b).1) = Some w).
Proof.
  unfold openAuthPopup. destruct (destroyed (state b)).
  { split; [done|]. intros w Hw. by apply elem_of_nil in Hw. }
  rewrite !andThen_fst, !andThen_snd, !opened_app,
    clearPopupPoll_snd, closeOpenPopup_snd, opened_poll_effects,
    opened_close_effects.
  pose proof (clear_close_tracked_or_closed b) as Hcc.
  set (b2 := (closeOpenPopup (clearPopupPoll b).1).1) in *.
  clearbody b2. simpl.
  destruct (URL_origin _).
  2:{ split; [intros w Hw; right; by apply Hcc|].
      intros w Hw. by apply elem_of_nil in Hw. }
  rewrite andThen_fst, andThen_snd, opened_app.
  unfold perform at 1 2. cbn [fst snd].
  destruct (env_open env) as [v|].
  - unfold_glue. simpl. split.
    + intros w Hw%Hcc. unfold tracked_or_closed, closed in *. simpl.
      destruct (decide (w = v)) as [->|Hne]; [by left|right].
      apply bool_decide_eq_true_2. apply bool_decide_eq_true_1 in Hw.
      rewrite elem_of_difference, elem_of_singleton. done.
    + intros w Hw. apply list_elem_of_singleton in Hw. by subst.
  - rewrite andThen_fst, andThen_snd, opened_app, sendToIframe_bridge,
      opened_sendToIframe, opened_call by done.
    unfold call, perform. simpl. split.
    + intros w Hw. right. by apply Hcc.
    + intros w Hw. by apply elem_of_nil in Hw.
Qed.

Lemma handleResize_bridge_popup h b w :
  tracked_or_closed b w → tracked_or_closed (handleResize h b).1 w.
Proof. unfold handleResize, assignHeight. by repeat case_match. Qed.

Lemma dispatch_keeps env m b :
  (∀ w, tracked_or_closed b w → tracked_or_closed (dispatch env m b).1 w)
  ∧ (∀ w, w ∈ opened (dispatch env m b).2 →
          popup (state (dispatch env m b).1) = Some w).
Proof.
  unfold dispatch.
  repeat case_match; try apply openAuthPopup_keeps;
    (split; [|try rewrite handleResize_snd; try rewrite opened_call by done;
              intros w Hw; simpl in Hw; by apply elem_of_nil in Hw]);
    try done.
  intros w. apply handleResize_bridge_popup.
Qed.

Lemma handleReadyMessage_keeps env m b :
  (∀ w, tracked_or_closed b w → tracked_or_closed (handleReadyMessage env m b).1 w)
  ∧ opened (handleReadyMessage env m b).2 = [].
Proof.
  unfold handleReadyMessage. unfold_glue. simpl.
  repeat case_match; simpl; done.
Qed.

Lemma handleMessage_keeps env event b :
  (∀ w, tracked_or_closed b w → tracked_or_closed (handleMessage env event b).1 w)
  ∧ (∀ w, w ∈ opened (handleMessage env event b).2 →
          popup (state (handleMessage env event b).1) = Some w).
Proof.
  destruct (handleMessage_cases env event b)
    as [->|[(m & _ & _ & _ & ->)|[(m & _ & _ & ->)|(m & _ & _ & ->)]]].
  - split; [done|]. intros w Hw. by apply elem_of_nil in Hw.
  - split.
    + intros w Hw. by apply handlePopupMessage_keeps.
    + intros w Hw.
      assert (opened (handlePopupMessage env m b).2 = []) as E.
      { unfold handlePopupMessage. rewrite !andThen_snd, !opened_app.
        rewrite clearPopupPoll_snd, closeOpenPopup_snd, opened_poll_effects,
          opened_close_effects.
        unfold update. simpl. rewrite !app_nil_r.
        repeat case_match; try done. apply opened_sendToIframe. }
      rewrite E in Hw. by apply elem_of_nil in Hw.
  - destruct (handleReadyMessage_keeps env m b) as [? E]. split; [done|].
    intros w Hw. rewrite E in Hw. by apply elem_of_nil in Hw.
  - apply dispatch_keeps.
Qed.

Lemma step_keeps a b :
  timer_inv b →
  (∀ w, tracked_or_closed b w → tracked_or_closed (step a b).1 w)
  ∧ (∀ w, w ∈ opened (step a b).2 → popup (state (step a b).1) = Some w).
Proof.
  intros Ht.
  assert (∀ w : WindowRef, w ∈ @nil WindowRef → ∀ P : Prop, P) as Hnil
    by (intros w Hw%elem_of_nil; done).
  destruct a as [env event|id| |env upd|v|cw]; simpl.
  - destruct (listening b); [apply handleMessage_keeps|].
    split; [done|]. intros w Hw. by eapply Hnil.
  - destruct (list_find _ _) as [[i [id' v]]|] eqn:Hfind.
    2:{ split; [done|]. intros w Hw. by eapply Hnil. }
    apply list_find_Some in Hfind as (Hl & _).
    destruct Ht as [Ht _]. unfold poll_owns_timers in Ht.
    destruct (popupPollIntervalId b) as [id0|].
    2:{ rewrite Ht in Hl. by rewrite lookup_nil in Hl. }
    destruct Ht as (v0 & Htm & Hp). rewrite Htm in Hl.
    destruct i; [|by rewrite lookup_cons, lookup_nil in Hl].
    injection Hl as <- <-.
    unfold pollPopup. destruct (closed b v0) eqn:Hc.
    2:{ split; [done|]. intros w Hw. by eapply Hnil. }
    rewrite andThen_fst, andThen_snd, clearPopupPoll_snd, opened_app,
      opened_poll_effects. unfold update. simpl. split.
    + intros w [Hw|Hw]; right.
      * rewrite Hp in Hw. injection Hw as <-.
        change (closed (clearPopupPoll b).1 v0 = true).
        by rewrite closed_after_clear.
      * change (closed (clearPopupPoll b).1 w = true).
        by rewrite closed_after_clear.
    + intros w Hw. by eapply Hnil.
  - destruct (destroyed (state b)) eqn:Hd.
    { rewrite destroy_dead by done. split; [done|]. intros w Hw. by eapply Hnil. }
    rewrite destroy_live_effects by done. split.
    + intros w Hw. right. unfold destroy. rewrite Hd, !andThen_fst.
      unfold rejectReady, settle, update. cbn [fst].
      set (b1 := set_listening false _).
      assert (tracked_or_closed b1 w) as Hw1 by exact Hw.
      pose proof (clear_close_tracked_or_closed b1 w Hw1) as Hc.
      by destruct (readyPromise _).
    + change (RemoveListener :: ?l) with ([RemoveListener] ++ l).
      rewrite !opened_app, opened_poll_effects, opened_close_effects.
      intros w Hw. by eapply Hnil.
  - rewrite sendConfigUpdate_bridge. split; [done|].
    unfold sendConfigUpdate. intros w Hw.
    assert (opened (sendConfigUpdate env upd b).2 = []) as E.
    { unfold sendConfigUpdate. repeat case_match; try done;
        apply opened_sendToIframe. }
    unfold sendConfigUpdate in E. rewrite E in Hw. by eapply Hnil.
  - split.
    + intros w [Hw|Hw]; [by left|right].
      unfold closed in *. simpl. apply bool_decide_eq_true_2.
      apply bool_decide_eq_true_1 in Hw. by apply elem_of_union_r.
    + intros w Hw. by eapply Hnil.
  - split; [done|]. intros w Hw. by eapply Hnil.
Qed.

Lemma run_keeps acts b (S : list WindowRef) :
  timer_inv b →
  (∀ w, w ∈ S → tracked_or_closed b w) →
  ∀ w, w ∈ S ++ opened (run acts b).2 → tracked_or_closed (run acts b).1 w.
Proof.
  revert b S. induction acts as [|a acts IH]; intros b S Ht HS w Hw.
  { simpl in Hw. rewrite app_nil_r in Hw. by apply HS. }
  cbn [run] in *. rewrite andThen_fst. rewrite andThen_snd, opened_app in Hw.
  destruct (step_keeps a b Ht) as [Hk Ho].
  apply (IH (step a b).1 (S ++ opened (step a b).2)).
  - by apply step_timer_inv.
  - intros v [Hv|Hv]%elem_of_app.
    + by apply Hk, HS.
    + left. by apply Ho.
  - by rewrite <- app_assoc.
Qed.

(** X12. Only one popup is ever active: at any time, every window the
    bridge has opened since it was created is either the tracked popup or
    closed. *)
Theorem one_popup_at_a_time acts cw h cl w :
  let r := run acts (createMessagingBridge cw h cl) in
  w ∈ opened r.2 →
  popup (state r.1) = Some w ∨ closed r.1 w = true.
Proof.
  intros r Hw.
  apply (run_keeps acts (createMessagingBridge cw h cl) []); [done| |done].
  intros v Hv. by apply elem_of_nil in Hv.
Qed.

End OnePopup.

(** ** Request identifiers *)

Lemma byte_forall (P : Z → bool) :
  forallb P (seqZ 0 256) = true → ∀ b, (0 ≤ b < 256)%Z → P b = true.
Proof.
  intros H b Hb. rewrite forallb_forall in H. apply H.
  apply list_elem_of_In, elem_of_seqZ. lia.
Qed.

Lemma hexByte_digits b :
  (0 ≤ b < 256)%Z →
  hexByte b = String (hexDigit (b / 16)) (String (hexDigit (b mod 16)) "").
Proof.
  intros Hb. apply String.eqb_eq. revert b Hb.
  apply (byte_forall (fun b => String.eqb (hexByte b) _)).
  vm_compute. reflexivity.
Qed.

Lemma stamp_version_digit b :
  (0 ≤ b < 256)%Z →
  let v := ToUint8 (Z.lor (Z.land b 0x0f) 0x40) in
  (0 ≤ v < 256 ∧ v / 16 = 4 ∧ v mod 16 = b mod 16)%Z.
Proof.
  intros Hb. cbv zeta.
  pose (P := fun b => let v := ToUint8 (Z.lor (Z.land b 0x0f) 0x40) in
                      ((0 <=? v) && (v <? 256) && (v / 16 =? 4)
                       && (v mod 16 =? b mod 16))%Z).
  assert (P b = true) as H by (apply byte_forall; [by vm_compute|done]).
  unfold P in H. cbv zeta in H. rewrite !andb_true_iff in H. lia.
Qed.

Lemma stamp_variant_digit b :
  (0 ≤ b < 256)%Z →
  let v := ToUint8 (Z.lor (Z.land b 0x3f) 0x80) in
  (0 ≤ v < 256 ∧ v / 16 = 8 + (b / 16) mod 4 ∧ v mod 16 = b mod 16)%Z.
Proof.
  intros Hb. cbv zeta.
  pose (P := fun b => let v := ToUint8 (Z.lor (Z.land b 0x3f) 0x80) in
                      ((0 <=? v) && (v <? 256) && (v / 16 =? 8 + (b / 16) mod 4)
                       && (v mod 16 =? b mod 16))%Z).
  assert (P b = true) as H by (apply byte_forall; [by vm_compute|done]).
  unfold P in H. cbv zeta in H. rewrite !andb_true_iff in H. lia.
Qed.

Lemma hexDigit_is_hex d : is_hex (hexDigit d) = true.
Proof.
  destruct d as [|p|p]; try reflexivity.
  do 4 (destruct p as [p|p|]; try reflexivity).
Qed.

(** A list of sixteen elements, spelled out. *)
Lemma sixteen_bytes_inv bytes :
  sixteen_bytes bytes →
  ∃ b0 b1 b2 b3 b4 b5 b6 b7 b8 b9 b10 b11 b12 b13 b14 b15,
    bytes = [b0; b1; b2; b3; b4; b5; b6; b7; b8; b9; b10; b11; b12; b13; b14; b15]
    ∧ Forall (fun b => (0 ≤ b < 256)%Z) bytes.
Proof.
  intros [Hlen Hall].
  do 16 (destruct bytes as [|? bytes]; [discriminate|]).
  destruct bytes; [|discriminate]. by repeat eexists.
Qed.

(** The identifier as a function of the stamped bytes' digits. *)
Lemma uuidFromBytes_digits bytes :
  sixteen_bytes bytes →
  ∃ c6 c8 : Z,
    (0 ≤ c6 < 256 ∧ c6 / 16 = 4)%Z
    ∧ (0 ≤ c8 < 256 ∧ 8 ≤ c8 / 16 < 12)%Z
    ∧ stampVersion bytes = <[8%nat := c8]> (<[6%nat := c6]> bytes)
    ∧ (default 0%Z (bytes !! 6%nat) mod 16 = c6 mod 16)%Z
    ∧ (default 0%Z (bytes !! 8%nat) mod 16 = c8 mod 16)%Z
    ∧ ((default 0%Z (bytes !! 8%nat) / 16) mod 4 = c8 / 16 - 8)%Z
    ∧ uuidFromBytes bytes =
        let h := flat_map (fun b => [hexDigit (b / 16); hexDigit (b mod 16)])
                   (<[8%nat := c8]> (<[6%nat := c6]> bytes)) in
        String.string_of_list_ascii
          (take 8 h ++ "-"%char :: take 4 (drop 8 h) ++ "-"%char
           :: take 4 (drop 12 h) ++ "-"%char :: take 4 (drop 16 h) ++ "-"%char
           :: drop 20 h).
Proof.
  intros (b0 & b1 & b2 & b3 & b4 & b5 & b6 & b7 & b8 & b9 & b10 & b11 & b12
          & b13 & b14 & b15 & -> & Hall)%sixteen_bytes_inv.
  repeat (apply Forall_cons in Hall as [? Hall]).
  destruct (stamp_version_digit b6) as (? & ? & ?); [done|].
  destruct (stamp_variant_digit b8) as (? & ? & ?); [done|].
  eexists (ToUint8 (Z.lor (Z.land b6 0x0f) 0x40)),
          (ToUint8 (Z.lor (Z.land b8 0x3f) 0x80)).
  assert (0 ≤ (b8 / 16) mod 4 < 4)%Z by (apply Z.mod_pos_bound; lia).
  split; [done|]. split; [lia|]. split; [reflexivity|].
  split; [simpl; lia|]. split; [simpl; lia|]. split; [simpl; lia|].
  unfold uuidFromBytes, stampVersion.
  cbn [lookup list_lookup default insert list_insert map].
  rewrite !hexByte_digits by done.
  reflexivity.
Qed.

Lemma unhexDigit_hexDigit d : (0 ≤ d < 16)%Z → unhexDigit (hexDigit d) = d.
Proof.
  intros Hd.
  assert (d = 0 ∨ d = 1 ∨ d = 2 ∨ d = 3 ∨ d = 4 ∨ d = 5 ∨ d = 6 ∨ d = 7
          ∨ d = 8 ∨ d = 9 ∨ d = 10 ∨ d = 11 ∨ d = 12 ∨ d = 13 ∨ d = 14
          ∨ d = 15)%Z as H by lia.
  repeat (destruct H as [->|H]; [by vm_compute|]). subst. by vm_compute.
Qed.

Lemma byte_of_digits x y :
  (0 ≤ x < 256)%Z → (0 ≤ y < 256)%Z →
  hexDigit (x / 16) = hexDigit (y / 16) →
  hexDigit (x mod 16) = hexDigit (y mod 16) →
  x = y.
Proof.
  intros Hx Hy Hh Hl.
  apply (f_equal unhexDigit) in Hh, Hl.
  rewrite !unhexDigit_hexDigit in Hh, Hl
    by (try apply Z.mod_pos_bound; try (split; [apply Z.div_pos|apply Z.div_lt_upper_bound]); lia).
  rewrite (Z.div_mod x 16), (Z.div_mod y 16) by lia. congruence.
Qed.

(** X13. Without [crypto.randomUUID], the request id made from the sixteen
    random bytes has the shape of a version 4 UUID: 36 characters, hyphens
    at positions 8, 13, 18 and 23, version digit 4, variant digit 8, 9, a or
    b, lower-case hexadecimal digits elsewhere. *)
Theorem generateRequestId_fallback_is_uuid_v4 crypto :
  randomUUID crypto = None →
  sixteen_bytes (getRandomValues crypto) →
  is_uuid_v4 (generateRequestId crypto) = true.
Proof.
  intros Hnone Hb. unfold generateRequestId. rewrite Hnone.
  destruct (uuidFromBytes_digits _ Hb)
    as (c6 & c8 & [_ H6] & [_ H8] & _ & _ & _ & _ & ->).
  apply sixteen_bytes_inv in Hb
    as (b0 & b1 & b2 & b3 & b4 & b5 & b6 & b7 & b8 & b9 & b10 & b11 & b12
        & b13 & b14 & b15 & -> & _).
  cbn [insert list_insert flat_map app take drop].
  rewrite H6.
  assert (c8 / 16 = 8 ∨ c8 / 16 = 9 ∨ c8 / 16 = 10 ∨ c8 / 16 = 11)%Z
    as [-> | [-> | [-> | ->]]] by lia;
    unfold is_uuid_v4; cbn; rewrite ?hexDigit_is_hex; reflexivity.
Qed.

(** X14. The fallback loses none of the random bits it keeps: two arrays of
    sixteen bytes give the same request id exactly when they agree after the
    version and variant bits are set. *)
Theorem uuidFromBytes_injective bytes bytes' :
  sixteen_bytes bytes →
  sixteen_bytes bytes' →
  uuidFromBytes bytes = uuidFromBytes bytes' ↔
  stampVersion bytes = stampVersion bytes'.
Proof.
  intros Hb Hb'. split.
  2:{ unfold uuidFromBytes. by intros ->. }
  destruct (uuidFromBytes_digits _ Hb)
    as (c6 & c8 & [R6 _] & [R8 _] & -> & _ & _ & _ & ->).
  destruct (uuidFromBytes_digits _ Hb')
    as (d6 & d8 & [S6 _] & [S8 _] & -> & _ & _ & _ & ->).
  apply sixteen_bytes_inv in Hb
    as (b0 & b1 & b2 & b3 & b4 & b5 & b6 & b7 & b8 & b9 & b10 & b11 & b12
        & b13 & b14 & b15 & -> & Hall).
  apply sixteen_bytes_inv in Hb'
    as (a0 & a1 & a2 & a3 & a4 & a5 & a6 & a7 & a8 & a9 & a10 & a11 & a12
        & a13 & a14 & a15 & -> & Hall').
  repeat (apply Forall_cons in Hall as [? Hall]).
  repeat (apply Forall_cons in Hall' as [? Hall']).
  cbn [insert list_insert flat_map app take drop String.string_of_list_ascii].
  intros E. injection E as E. simplify_eq.
  repeat f_equal; by apply byte_of_digits.
Qed.

(** ** The popup's place on the screen *)

Lemma Math_round_half a d :
  Math_round (inject_Z a + (inject_Z d - inject_Z 480) / 2) = (a + (d - 480 + 1) / 2)%Z
  ∧ Math_round (inject_Z a + (inject_Z d - inject_Z 640) / 2) = (a + (d - 640 + 1) / 2)%Z.
Proof.
  assert (∀ k : Z, Math_round (inject_Z a + (inject_Z d - inject_Z k) / 2)
                   = (a + (d - k + 1) / 2)%Z) as H.
  { intros k. unfold Math_round.
    assert (inject_Z a + (inject_Z d - inject_Z k) / 2 + (1 # 2)
            == (2 * a + (d - k + 1)) # 2)%Q as ->.
    { unfold Qeq, inject_Z, Qplus, Qminus, Qdiv, Qmult, Qinv, Qopp. simpl. lia. }
    unfold Qfloor.
    replace (2 * a + (d - k + 1))%Z with ((d - k + 1) + a * 2)%Z by lia.
    rewrite Z.div_add by lia. lia. }
  split; apply H.
Qed.

(** X15. The popup is never placed at a negative coordinate; and when the
    opener's window is on screen and at least as large as the popup, the
    popup lies inside that window and is centred on it to within half a
    pixel. *)
Theorem popup_position win :
  (0 ≤ popupLeft win ∧ 0 ≤ popupTop win)%Z
  ∧ ((0 ≤ screenX win → POPUP_WIDTH ≤ outerWidth win →
      screenX win ≤ popupLeft win
      ∧ popupLeft win + POPUP_WIDTH ≤ screenX win + outerWidth win
      ∧ 0 ≤ 2 * popupLeft win + POPUP_WIDTH - (2 * screenX win + outerWidth win) ≤ 1)
     ∧ (0 ≤ screenY win → POPUP_HEIGHT ≤ outerHeight win →
        screenY win ≤ popupTop win
        ∧ popupTop win + POPUP_HEIGHT ≤ screenY win + outerHeight win
        ∧ 0 ≤ 2 * popupTop win + POPUP_HEIGHT - (2 * screenY win + outerHeight win) ≤ 1))%Z.
Proof.
  unfold popupLeft, popupTop, POPUP_WIDTH, POPUP_HEIGHT.
  rewrite (proj1 (Math_round_half (screenX win) (outerWidth win))),
          (proj2 (Math_round_half (screenY win) (outerHeight win))).
  pose proof (Z.div_mod (outerWidth win - 480 + 1) 2 ltac:(lia)).
  pose proof (Z.mod_pos_bound (outerWidth win - 480 + 1) 2 ltac:(lia)).
  pose proof (Z.div_mod (outerHeight win - 640 + 1) 2 ltac:(lia)).
  pose proof (Z.mod_pos_bound (outerHeight win - 640 + 1) 2 ltac:(lia)).
  lia.
Qed.

Example getPopupFeatures_example :
  getPopupFeatures {| screenX := 100; screenY := 50; outerWidth := 1281;
                      outerHeight := 800 |}
  = "width=480,height=640,left=501,top=130,menubar=no,toolbar=no,location=yes,status=no,resizable=yes,scrollbars=yes".
Proof. vm_compute. reflexivity. Qed.
(** ** Configuration and session start-up *)

Lemma nonEmptyString_Some v s :
  nonEmptyString v = Some s ↔ v = JStr s ∧ s ≠ "".
Proof.
  unfold nonEmptyString. destruct v; try (split; [done|by intros [? _]]).
  destruct (str_empty s0) eqn:E.
  - split; [done|]. intros [[= ->] Hne]. apply str_empty_false in Hne. congruence.
  - apply str_empty_false in E. split; [by intros [= ->]|by intros [[= ->] _]].
Qed.

Lemma stripTrailingSlashes_no_slash s :
  endsWithSlash (stripTrailingSlashes s) = false.
Proof.
  induction s as [|c s IH]; [done|]. simpl.
  destruct (stripTrailingSlashes s) as [|c' s'] eqn:E.
  - destruct (Ascii.eqb c "/") eqn:Ec; [done|]. simpl. by rewrite Ec.
  - exact IH.
Qed.

Lemma stripTrailingSlashes_fixed s :
  endsWithSlash s = false → stripTrailingSlashes s = s.
Proof.
  induction s as [|c s IH]; [done|]. simpl.
  destruct s as [|c' s'].
  - simpl. by intros ->.
  - intros H. rewrite IH by done. done.
Qed.

Lemma stripTrailingSlashes_slashes s :
  ∃ k, s = stripTrailingSlashes s
           +:+ String.string_of_list_ascii (replicate k "/"%char).
Proof.
  induction s as [|c s (k & IH)]; [by exists 0%nat|]. simpl.
  destruct (stripTrailingSlashes s) as [|c' s'] eqn:E.
  - destruct (Ascii.eqb c "/") eqn:Ec.
    + apply Ascii.eqb_eq in Ec as ->. exists (S k). simpl in *. by rewrite IH at 1.
    + exists k. simpl in *. by rewrite IH at 1.
  - exists k. simpl in *. by rewrite IH at 1.
Qed.

(** X16. Stripping the trailing slashes of a URL removes slashes from its
    end and nothing else: the result does not end in a slash, the URL is the
    result followed by slashes only, a URL without a trailing slash is kept
    as it is, and stripping twice is stripping once. *)
Theorem stripTrailingSlashes_spec s :
  endsWithSlash (stripTrailingSlashes s) = false
  ∧ (∃ k, s = stripTrailingSlashes s
              +:+ String.string_of_list_ascii (replicate k "/"%char))
  ∧ (endsWithSlash s = false → stripTrailingSlashes s = s)
  ∧ stripTrailingSlashes (stripTrailingSlashes s) = stripTrailingSlashes s.
Proof.
  split; [apply stripTrailingSlashes_no_slash|].
  split; [apply stripTrailingSlashes_slashes|].
  split; [apply stripTrailingSlashes_fixed|].
  apply stripTrailingSlashes_fixed, stripTrailingSlashes_no_slash.
Qed.

Section EntryPointFacts.

Context {page : Page}.

Lemma normalizeUrl_inr url fallback u :
  normalizeUrl url fallback = inr u →
  endsWithSlash u = false
  ∧ (url = JStr u ∨ u = stripTrailingSlashes fallback
     ∨ ∃ s, url = JStr s ∧ u = stripTrailingSlashes s).
Proof.
  unfold normalizeUrl. destruct url; intros [= <-];
    (split; [apply stripTrailingSlashes_no_slash|]); eauto.
Qed.

(** X17. A configuration that [validateConfig] accepts: the public key and
    the two slugs are the given non-empty strings, the court slug is absent
    or a non-empty string, the mode is full or calendar, the locale is not
    empty, the theme is not null or undefined, and neither URL ends in a
    slash. *)
Theorem validateConfig_accepts config v :
  validateConfig config = inr v →
  (cfg_publicKey config = JStr (v_publicKey v) ∧ v_publicKey v ≠ "")
  ∧ (cfg_orgSlug config = JStr (v_orgSlug v) ∧ v_orgSlug v ≠ "")
  ∧ (cfg_facilitySlug config = JStr (v_facilitySlug v) ∧ v_facilitySlug v ≠ "")
  ∧ (∀ c, v_courtSlug v = Some c → cfg_courtSlug config = JStr c ∧ c ≠ "")
  ∧ (v_mode v = "full" ∨ v_mode v = "calendar")
  ∧ v_locale v ≠ ""
  ∧ (v_theme v ≠ JUndefined ∧ v_theme v ≠ JNull)
  ∧ endsWithSlash (v_apiUrl v) = false
  ∧ endsWithSlash (v_playUrl v) = false.
Proof.
  unfold validateConfig. intros H.
  destruct (resolveContainer _); [done|].
  destruct (nonEmptyString (cfg_publicKey config)) as [pk|] eqn:Hpk; [|done].
  destruct (nonEmptyString (cfg_orgSlug config)) as [os|] eqn:Hos; [|done].
  destruct (nonEmptyString (cfg_facilitySlug config)) as [fs|] eqn:Hfs; [|done].
  destruct (normalizeUrl (cfg_apiUrl config) _) as [|au] eqn:Hau; [done|].
  destruct (normalizeUrl (cfg_playUrl config) _) as [|pu] eqn:Hpu; [done|].
  injection H as <-. simpl.
  apply nonEmptyString_Some in Hpk, Hos, Hfs.
  apply normalizeUrl_inr in Hau as [Hau _], Hpu as [Hpu _].
  split; [done|]. split; [done|]. split; [done|].
  split; [intros c Hc; by apply nonEmptyString_Some|].
  split.
  { destruct (cfg_mode config) as [| | | | |m|]; try by left.
    destruct (String.eqb m "full") eqn:E1; [left; by apply String.eqb_eq|].
    destruct (String.eqb m "calendar") eqn:E2; [right; by apply String.eqb_eq|].
    by left. }
  split.
  { destruct (nonEmptyString (cfg_locale config)) as [l|] eqn:Hl; [|done].
    simpl. by apply nonEmptyString_Some in Hl as [_ ?]. }
  split; [by destruct (cfg_theme config)|done].
Qed.

(** X18. [validateConfig] reports the first requirement that fails, in the
    order container, publicKey, orgSlug, facilitySlug: a later field is
    blamed only when all the earlier ones are fine. *)
Theorem validateConfig_first_failure config e :
  resolveContainer (cfg_container config) = inr e →
  (nonEmptyString (cfg_publicKey config) = None →
   validateConfig config = inl (ThrownError KError ERR_PUBLIC_KEY))
  ∧ (nonEmptyString (cfg_publicKey config) ≠ None →
     nonEmptyString (cfg_orgSlug config) = None →
     validateConfig config = inl (ThrownError KError ERR_ORG_SLUG))
  ∧ (nonEmptyString (cfg_publicKey config) ≠ None →
     nonEmptyString (cfg_orgSlug config) ≠ None →
     nonEmptyString (cfg_facilitySlug config) = None →
     validateConfig config = inl (ThrownError KError ERR_FACILITY_SLUG)).
Proof.
  intros Hc. unfold validateConfig. rewrite Hc.
  repeat split; repeat (intros H; try rewrite H);
    repeat (destruct (nonEmptyString _); try done).
Qed.

Lemma initEmbedSession_catch_prefix t :
  ∃ kind message,
    initEmbedSession_catch t = ThrownError kind message
    ∧ String.prefix "[VenyuEmbed]" message = true.
Proof.
  unfold initEmbedSession_catch.
  destruct (isAbortError t); [by eauto|].
  destruct t as [kind message|v]; [|by eauto].
  destruct (String.prefix "[VenyuEmbed]" message) eqn:E; eauto.
Qed.

(** X19. Whatever goes wrong in [initEmbedSession] (the request fails or is
    aborted, the response is not ok, its body is not JSON or lacks the
    token), the caller gets an [Error] whose message starts with
    [[VenyuEmbed]]. *)
Theorem initEmbedSession_errors_tagged outcome t :
  initEmbedSession outcome = inl t →
  ∃ kind message,
    t = ThrownError kind message ∧ String.prefix "[VenyuEmbed]" message = true.
Proof.
  unfold initEmbedSession. destruct (initEmbedSession_try outcome) as [e|]; [|done].
  intros [= <-]. apply initEmbedSession_catch_prefix.
Qed.

(** X20. [initEmbedSession] succeeds exactly when the request is answered
    with an ok response whose JSON body is an object holding a non-empty
    string [embedToken]; it then returns that body unchanged. *)
Theorem initEmbedSession_succeeds outcome data :
  initEmbedSession outcome = inr data ↔
  ∃ r o token,
    outcome = FetchResolved r
    ∧ resp_ok r = true
    ∧ resp_json r = inr data
    ∧ data = JObj o
    ∧ get o "embedToken" = JStr token
    ∧ token ≠ "".
Proof.
  unfold initEmbedSession, initEmbedSession_try. split.
  - destruct outcome as [t|r]; [done|].
    destruct (resp_ok r) eqn:Hok; [|done]. simpl.
    destruct (resp_json r) as [|d] eqn:Hj; [done|].
    destruct (member d "embedToken") as [|tok] eqn:Hm; [done|].
    destruct (nonEmptyString tok) as [s|] eqn:Hs; [|done].
    intros [= <-]. apply nonEmptyString_Some in Hs as [-> Hne].
    unfold member in Hm. destruct d; try done. injection Hm as Hm.
    by exists r, props, s.
  - intros (r & o & token & -> & Hok & Hj & -> & Ht & Hne).
    rewrite Hok, Hj. simpl. rewrite Ht. by destruct token.
Qed.


End EntryPointFacts.

(** ** The codec and two reactors, end to end *)

(** X22. What structural validation accepts, exactly: an object whose type
    is a string in the venyu namespace, whose version is the number 1, whose
    requestId and nonce are non-empty strings, whose timestamp is a number
    that is positive or NaN, and whose payload is an object; the message
    returned consists of those six fields. *)
Theorem validateIncomingMessage_accepts_exactly data m :
  validateIncomingMessage data = Some m ↔
  ∃ props, data = JObj props
    ∧ get props "type" = JStr (msg_type m)
    ∧ String.prefix MESSAGE_PREFIX (msg_type m) = true
    ∧ get props "version" = JNum (msg_version m)
    ∧ (∃ q, msg_version m = Fin q ∧ (q == 1)%Q)
    ∧ get props "requestId" = JStr (msg_requestId m)
    ∧ msg_requestId m ≠ ""
    ∧ get props "nonce" = JStr (msg_nonce m)
    ∧ msg_nonce m ≠ ""
    ∧ get props "timestamp" = JNum (msg_timestamp m)
    ∧ (positive_number (msg_timestamp m) ∨ msg_timestamp m = NaN)
    ∧ get props "payload" = JObj (msg_payload m).
Proof.
  rewrite validateIncomingMessage_Some.
  split; intros (props & H); exists props;
    rewrite <- num_eqb_version, <- num_leb_zero_false in *; exact H.
Qed.

Section Reactors.

Context {host : Host}.

(** X23. A resize message that passes the router, end to end: nothing is
    performed and nothing but the frame's height can change; a finite
    height that is not negative sets the height to its ceiling in pixels; a
    negative height, or one that is not a number, leaves the bridge as it
    was. *)
Theorem handleMessage_resize env event m b :
  destroyed (state b) = false →
  origin event = expectedOrigin →
  isFromIframe event b = true →
  isFromPopup event b = false →
  validateIncomingMessage (data event) = Some m →
  sealed (msg_nonce m) b →
  msg_type m = "venyu:resize" →
  let r := handleMessage env event b in
  r.2 = []
  ∧ state r.1 = state b
  ∧ readyPromise r.1 = readyPromise b
  ∧ (∀ q, get (msg_payload m) "height" = JNum (Fin q) → (0 <= q)%Q →
          styleHeight r.1 = CssPx (Fin (inject_Z (Qceiling q))))
  ∧ (∀ q, get (msg_payload m) "height" = JNum (Fin q) → (q < 0)%Q → r.1 = b)
  ∧ ((∀ h, get (msg_payload m) "height" ≠ JNum h) → r.1 = b).
Proof.
  intros Hd Ho Hi Hp Hv Hs Ht r.
  assert (r = match get (msg_payload m) "height" with
              | JNum h => handleResize (JNum h) b
              | _ => (b, [])
              end) as ->.
  { unfold r. rewrite (handleMessage_frame_other env event m b);
      [|done|done|done|done|done|by rewrite Ht].
    assert (nonce_gate m b = true) as -> by by apply nonce_gate_true.
    unfold dispatch. rewrite Ht. simpl. by repeat case_match. }
  split.
  { case_match; try done. apply handleResize_snd. }
  split.
  { case_match; try done. by destruct (handleResize_fields (JNum n) b) as (? & _). }
  split.
  { case_match; try done.
    pose proof (handleResize_session (JNum n) b) as E. unfold session in E.
    by injection E. }
  split; [|split].
  - intros q -> Hq.
    destruct (handleResize_spec (JNum (Fin q)) b) as (_ & _ & _ & _ & Hset).
    by rewrite (Hset q).
  - intros q -> Hq.
    rewrite (proj1 (proj2 (proj2 (handleResize_spec (JNum (Fin q)) b))) (Fin q));
      try done.
    simpl. intros Hle. exact (Qlt_not_le _ _ Hq Hle).
  - intros Hn. case_match; try done. by edestruct Hn.
Qed.

(** X24. The first popup request after the handshake, refused by the
    browser, while the frame's window is there: one window is requested, the
    frame is told [popup_blocked] with an empty result token, the error
    callback is called once (when given), and no popup and no poll is
    tracked afterwards. *)
Theorem blocked_popup_without_predecessor env event m b cw o :
  reachable b →
  destroyed (state b) = false →
  origin event = expectedOrigin →
  isFromIframe event b = true →
  validateIncomingMessage (data event) = Some m →
  sealed (msg_nonce m) b →
  msg_type m = "venyu:auth:open-popup" →
  popup (state b) = None →
  contentWindow b = Some cw →
  URL_origin (playUrl config +:+ "/embed/auth/popup") = Some o →
  env_open env = None →
  let r := handleMessage env event b in
  r.2 = [WindowOpen (popupUrl b) "venyu-auth" (env_features env);
         PostMessage cw
           (buildMessage env "venyu:auth:popup-result" blocked_payload (msg_nonce m))
           expectedOrigin]
        ++ (if onError (callbacks config) then [OnError ERR_POPUP_BLOCKED] else [])
  ∧ popup (state r.1) = None
  ∧ popupPollIntervalId r.1 = None
  ∧ timers r.1 = []
  ∧ session r.1 = session b.
Proof.
  intros Hr Hd Ho Hi Hv [Hh Hn] Ht Hp Hcw Hu Hopen r.
  destruct (reachable_nonce b _ Hr Hn) as [Hne _].
  pose proof (reachable_timer_inv b Hr) as Hinv.
  assert (popupPollIntervalId b = None) as Hpoll.
  { destruct Hinv as [Hown _]. unfold poll_owns_timers in Hown.
    destruct (popupPollIntervalId b); [|done].
    destruct Hown as (w & _ & Hw). congruence. }
  assert (r = openAuthPopup env b) as ->.
  { unfold r. rewrite (handleMessage_frame_other env event m b);
      [|done|done|done|by (unfold isFromPopup; rewrite Hp)|done|by rewrite Ht].
    assert (nonce_gate m b = true) as -> by by apply nonce_gate_true.
    unfold dispatch. by rewrite Ht. }
  destruct (openAuthPopup_blocked env b _ cw o Hd Hn Hne Hcw Hu Hopen)
    as (He & Hp' & Hpoll').
  split.
  { rewrite He. unfold poll_effects, close_effects, popupUrl, falsy.
    rewrite Hpoll, Hp, Hn. apply str_empty_false in Hne. by rewrite Hne. }
  split; [by rewrite Hp'|]. split; [done|].
  split; [|apply openAuthPopup_session].
  destruct (openAuthPopup_fields env b Hinv Hd) as ([Hown _] & _).
  unfold poll_owns_timers in Hown. by rewrite Hpoll' in Hown.
Qed.

End Reactors.

(** ** The readiness promise and the handshake, over any course of events *)

Section Readiness.

Context {host : Host}.

Lemma promise_inv_same_session b b' :
  session b' = session b → promise_inv b → promise_inv b'.
Proof.
  unfold session, promise_inv. intros [= _ Hh Hd Hp _]. by rewrite Hh, Hd, Hp.
Qed.

Lemma handleMessage_promise_inv env event b :
  promise_inv b → promise_inv (handleMessage env event b).1.
Proof.
  intros I.
  destruct (destroyed (state b)) eqn:Hd.
  { by rewrite handleMessage_destroyed. }
  destruct (handleMessage_cases env event b)
    as [->|[(m & _ & _ & _ & ->)|[(m & _ & _ & ->)|(m & _ & _ & ->)]]].
  - done.
  - eapply promise_inv_same_session; [apply handlePopupMessage_session|done].
  - destruct (handshakeComplete (state b)) eqn:Hh.
    { by rewrite handleReadyMessage_done. }
    assert (readyPromise b = Pending) as Hp.
    { unfold promise_inv in I. destruct (readyPromise b) as [| |r]; [done|congruence|].
      destruct I as [[_ ?]|[_ ?]]; congruence. }
    destruct (contentWindow b) as [cw|] eqn:Hcw.
    + rewrite (handleReadyMessage_first _ _ _ cw) by done.
      unfold resolveReady, settle, update, promise_inv. simpl. by rewrite Hp.
    + rewrite handleReadyMessage_detached by done.
      unfold rejectReady, settle, update, promise_inv. simpl. rewrite Hp. simpl.
      by left.
  - eapply promise_inv_same_session; [apply dispatch_session|done].
Qed.

Lemma step_promise_inv a b : promise_inv b → promise_inv (step a b).1.
Proof.
  intros I. destruct a as [env event|id| |env upd|w|cw]; simpl.
  - destruct (listening b); [by apply handleMessage_promise_inv|done].
  - destruct (list_find _ _) as [[? [? w]]|]; [|done].
    eapply promise_inv_same_session; [apply pollPopup_session|done].
  - destruct (destroyed (state b)) eqn:Hd.
    { by rewrite destroy_dead. }
    destruct (destroy_live b Hd) as ([= _ Hh Hd' Hp _] & _).
    unfold promise_inv in *. rewrite Hh, Hd', Hp.
    destruct (readyPromise b) as [| |r]; [by right|done|].
    destruct I as [[? ?]|[_ ?]]; [by left|congruence].
  - by rewrite sendConfigUpdate_bridge.
  - done.
  - done.
Qed.

Lemma run_promise_inv acts b : promise_inv b → promise_inv (run acts b).1.
Proof.
  revert b. induction acts as [|a acts IH]; intros b I; [done|].
  cbn [run]. rewrite andThen_fst. by apply IH, step_promise_inv.
Qed.

(** X25. The readiness promise follows the session on every bridge that
    can exist: it is pending exactly while the handshake is not complete and
    the bridge is not destroyed; it is fulfilled only with a complete
    handshake; it is rejected only for the missing frame window or for the
    destruction; and once settled it never changes. *)
Theorem readiness_promise_lifecycle b :
  reachable b →
  (readyPromise b = Pending ↔
   handshakeComplete (state b) = false ∧ destroyed (state b) = false)
  ∧ (readyPromise b = Fulfilled → handshakeComplete (state b) = true)
  ∧ (∀ reason, readyPromise b = Rejected reason →
       (reason = ERR_NO_WINDOW ∧ handshakeComplete (state b) = true)
       ∨ (reason = ERR_DESTROYED ∧ destroyed (state b) = true))
  ∧ (readyPromise b ≠ Pending →
     ∀ acts, readyPromise (run acts b).1 = readyPromise b).
Proof.
  intros Hr.
  assert (promise_inv b) as I.
  { destruct Hr as (cw & h & cl & acts & ->). by apply run_promise_inv. }
  pose proof (reachable_inv b Hr) as [_ _ I3 _ _].
  unfold promise_inv in I.
  split; [|split; [|split]].
  - split; [|by intros [? ?]; apply I3].
    intros Hp. by rewrite Hp in I.
  - intros Hp. by rewrite Hp in I.
  - intros reason Hp. by rewrite Hp in I.
  - intros Hp acts. by apply run_settled.
Qed.

Lemma handshake_effects_app l1 l2 :
  handshake_effects (l1 ++ l2) = (handshake_effects l1 + handshake_effects l2)%nat.
Proof. unfold handshake_effects. rewrite !count_app. lia. Qed.

Lemma handshake_effects_poll b : handshake_effects (poll_effects b) = 0%nat.
Proof. unfold poll_effects. by case_match. Qed.

Lemma handshake_effects_close b : handshake_effects (close_effects b) = 0%nat.
Proof. unfold close_effects. by repeat case_match. Qed.

Lemma handshake_effects_send env ty p b :
  String.eqb ty "venyu:init" = false →
  handshake_effects (sendToIframe env ty p b).2 = 0%nat.
Proof.
  intros Hty. unfold sendToIframe. repeat case_match; try done.
  unfold handshake_effects, count. simpl. by rewrite Hty.
Qed.

Lemma handshake_effects_call present e b :
  is_OnReady e = false → is_init e = false →
  handshake_effects (call present e b).2 = 0%nat.
Proof.
  intros H1 H2. unfold call, perform, handshake_effects, count.
  destruct present; simpl; [|done]. by rewrite H1, H2.
Qed.

Lemma handshake_effects_popup env m b :
  handshake_effects (handlePopupMessage env m b).2 = 0%nat.
Proof.
  unfold handlePopupMessage.
  rewrite !andThen_snd, !handshake_effects_app, clearPopupPoll_snd,
    closeOpenPopup_snd, handshake_effects_poll, handshake_effects_close.
  unfold update at 1. simpl.
  repeat case_match; try done. by rewrite handshake_effects_send.
Qed.

Lemma handshake_effects_open env b :
  handshake_effects (openAuthPopup env b).2 = 0%nat.
Proof.
  unfold openAuthPopup. destruct (destroyed (state b)); [done|].
  rewrite !andThen_snd, !handshake_effects_app, clearPopupPoll_snd,
    closeOpenPopup_snd, handshake_effects_poll, handshake_effects_close.
  set (b2 := (closeOpenPopup (clearPopupPoll b).1).1). clearbody b2. simpl.
  destruct (URL_origin _); [|done].
  rewrite andThen_snd, handshake_effects_app.
  unfold perform at 1 2. cbn [fst snd].
  destruct (env_open env).
  - by unfold_glue.
  - by rewrite andThen_snd, handshake_effects_app, handshake_effects_send,
      handshake_effects_call.
Qed.

Lemma handshake_effects_dispatch env m b :
  handshake_effects (dispatch env m b).2 = 0%nat.
Proof.
  unfold dispatch.
  repeat case_match; try done; try (by rewrite handshake_effects_call).
  - by rewrite handleResize_snd.
  - apply handshake_effects_open.
Qed.

Lemma handshake_effects_ready env m b :
  (count is_init (handleReadyMessage env m b).2 ≤ 1)%nat
  ∧ (count is_OnReady (handleReadyMessage env m b).2 ≤ 1)%nat
  ∧ (handshakeComplete (state b) = true →
     handshake_effects (handleReadyMessage env m b).2 = 0%nat)
  ∧ handshakeComplete (state (handleReadyMessage env m b).1) = true.
Proof.
  destruct (handshakeComplete (state b)) eqn:Hh.
  { rewrite handleReadyMessage_done by done.
    repeat split; unfold handshake_effects, count; simpl; (lia || done). }
  destruct (contentWindow b) as [cw|] eqn:Hcw.
  - rewrite (handleReadyMessage_first _ _ _ cw) by done.
    unfold resolveReady, settle, update, handshake_effects, count. simpl.
    repeat split; try done.
    + destruct (onReady (callbacks config)); simpl; lia.
    + destruct (onReady (callbacks config)); simpl; lia.
    + by destruct (readyPromise b).
  - rewrite handleReadyMessage_detached by done.
    unfold rejectReady, settle, update, handshake_effects, count. simpl.
    repeat split; try done.
    + destruct (onError (callbacks config)); simpl; lia.
    + destruct (onError (callbacks config)); simpl; lia.
    + by destruct (readyPromise b).
Qed.

Lemma step_complete a b :
  handshakeComplete (state b) = true →
  handshakeComplete (state (step a b).1) = true.
Proof.
  intros Hh.
  assert (∀ b', session b' = session b →
            handshakeComplete (state b') = true) as Hs.
  { unfold session. by intros b' [= _ -> _ _ _]. }
  destruct a as [env event|id| |env upd|w|cw]; simpl; try done.
  - destruct (listening b); [|done].
    destruct (handleMessage_cases env event b)
      as [->|[(m & _ & _ & _ & ->)|[(m & _ & _ & ->)|(m & _ & _ & ->)]]].
    + done.
    + apply Hs, handlePopupMessage_session.
    + by rewrite handleReadyMessage_done.
    + apply Hs, dispatch_session.
  - destruct (list_find _ _) as [[? [? w]]|]; [|done].
    apply Hs, pollPopup_session.
  - destruct (destroyed (state b)) eqn:Hd.
    { by rewrite destroy_dead. }
    by destruct (destroy_live b Hd) as ([= _ -> _ _ _] & _).
  - by rewrite sendConfigUpdate_bridge.
Qed.

Lemma step_handshake_effects a b :
  (count is_init (step a b).2 ≤ 1)%nat
  ∧ (count is_OnReady (step a b).2 ≤ 1)%nat
  ∧ (handshakeComplete (state b) = true →
     handshake_effects (step a b).2 = 0%nat)
  ∧ (handshake_effects (step a b).2 = 0%nat
     ∨ handshakeComplete (state (step a b).1) = true).
Proof.
  assert (∀ (r : Bridge * list Effect), handshake_effects r.2 = 0%nat →
            (count is_init r.2 ≤ 1)%nat
            ∧ (count is_OnReady r.2 ≤ 1)%nat
            ∧ (handshakeComplete (state b) = true → handshake_effects r.2 = 0%nat)
            ∧ (handshake_effects r.2 = 0%nat
               ∨ handshakeComplete (state r.1) = true)) as Hnone.
  { intros r Hr. unfold handshake_effects in *. repeat split; lia. }
  destruct a as [env event|id| |env upd|w|cw]; simpl;
    try (apply (Hnone (_, [])); reflexivity).
  - destruct (listening b); [|by apply Hnone].
    destruct (handleMessage_cases env event b)
      as [->|[(m & _ & _ & _ & ->)|[(m & _ & _ & ->)|(m & _ & _ & ->)]]].
    + by apply Hnone.
    + apply Hnone, handshake_effects_popup.
    + destruct (handshake_effects_ready env m b) as (? & ? & ? & ?).
      repeat split; try done. by right.
    + apply Hnone, handshake_effects_dispatch.
  - destruct (list_find _ _) as [[? [? w]]|]; [|by apply Hnone].
    apply Hnone. unfold pollPopup. case_match; [|done].
    rewrite andThen_snd, handshake_effects_app, clearPopupPoll_snd,
      handshake_effects_poll. done.
  - apply Hnone. destruct (destroyed (state b)) eqn:Hd.
    { by rewrite destroy_dead. }
    rewrite destroy_live_effects by done.
    change (RemoveListener :: ?l) with ([RemoveListener] ++ l).
    by rewrite !handshake_effects_app, handshake_effects_poll,
      handshake_effects_close.
  - apply Hnone. unfold sendConfigUpdate.
    repeat case_match; try done; by rewrite handshake_effects_send.
Qed.

Lemma run_complete_no_handshake acts b :
  handshakeComplete (state b) = true →
  handshake_effects (run acts b).2 = 0%nat.
Proof.
  revert b. induction acts as [|a acts IH]; intros b Hh; [done|].
  cbn [run]. rewrite andThen_snd, handshake_effects_app.
  destruct (step_handshake_effects a b) as (_ & _ & Hz & _).
  rewrite Hz by done. apply IH. by apply step_complete.
Qed.

(** X26. The handshake happens at most once: over any course of events, on
    any bridge, at most one init message is posted and onReady is called at
    most once; and neither happens once the handshake is complete. *)
Theorem handshake_at_most_once acts b :
  (count is_init (run acts b).2 ≤ 1)%nat
  ∧ (count is_OnReady (run acts b).2 ≤ 1)%nat
  ∧ (handshakeComplete (state b) = true →
     count is_init (run acts b).2 = 0%nat
     ∧ count is_OnReady (run acts b).2 = 0%nat).
Proof.
  assert (∀ (rest : list Action) b', handshakeComplete (state b') = true →
            count is_init (run rest b').2 = 0%nat
            ∧ count is_OnReady (run rest b').2 = 0%nat) as Hdone.
  { intros rest b' Hh. pose proof (run_complete_no_handshake rest b' Hh) as H.
    unfold handshake_effects in H. lia. }
  split; [|split; [|apply Hdone]].
  - revert b. induction acts as [|a acts IH]; intros b.
    { unfold count. simpl. lia. }
    cbn [run]. rewrite andThen_snd, count_app.
    destruct (step_handshake_effects a b) as (Hi & _ & _ & [Hz|Hh]).
    + unfold handshake_effects in Hz. specialize (IH (step a b).1). lia.
    + destruct (Hdone acts _ Hh). lia.
  - revert b. induction acts as [|a acts IH]; intros b.
    { unfold count. simpl. lia. }
    cbn [run]. rewrite andThen_snd, count_app.
    destruct (step_handshake_effects a b) as (_ & Hr & _ & [Hz|Hh]).
    + unfold handshake_effects in Hz. specialize (IH (step a b).1). lia.
    + destruct (Hdone acts _ Hh). lia.
Qed.

End Readiness.

(** ** The further theorems at concrete inputs *)

Lemma reachable_dead : @reachable Demo.host Samples.dead.
Proof.
  exists (Some Demo.frameWindow), (CssInitial "600px"), ∅,
    (Samples.handshakeThenPopup ++ [CallDestroy]).
  vm_compute. reflexivity.
Defined.

(** A message from a window the bridge does not know. *)
Lemma handleMessage_foreign_source_witness :
  Demo.handle (Demo.env "r2" None) Samples.stranger Demo.shaken = (Demo.shaken, []).
Proof.
  apply (@handleMessage_foreign_source Demo.host).
  - vm_compute. discriminate.
  - intros p Hp. vm_compute in Hp. discriminate.
Defined.

(** The bridge that tracks a popup has exactly its poll as live interval. *)
Lemma reachable_timers_witness :
  timers Demo.withPopup = [(7%nat, Demo.popupWindow)]
  ∧ popup (state Demo.withPopup) = Some Demo.popupWindow.
Proof.
  destruct (@reachable_timers Demo.host Demo.withPopup reachable_withPopup)
    as [H _].
  vm_compute in H. destruct H as (w & H1 & H2).
  injection H2 as <-. split; [vm_compute; reflexivity | vm_compute; reflexivity].
Defined.

(** After destroy: a ready signal, a timer tick and a config update. *)
Lemma destroyed_bridge_inert_witness :
  (Demo.exec [Deliver (Demo.env "r5" None) (Demo.ready "xyz"); PollTick 7;
              CallSendConfigUpdate (Demo.env "r6" None) Samples.toEnglish]
     Samples.dead).2 = [].
Proof.
  apply (@destroyed_bridge_inert Demo.host).
  - apply reachable_dead.
  - vm_compute. reflexivity.
Defined.

(** The init message of the handshake with nonce abc. *)
Lemma posts_well_addressed_witness :
  let e := Demo.env "r0" None in
  nonce (state (Demo.exec Samples.handshake Demo.fresh).1)
    = Some (msg_nonce (@initMessage Demo.host e "abc")).
Proof.
  intros e.
  apply (@posts_well_addressed Demo.host Samples.handshake Demo.fresh
           Demo.frameWindow (@initMessage Demo.host e "abc")
           "https://play.venyu.ch").
  - apply reachable_created.
  - replace (Demo.exec Samples.handshake Demo.fresh).2
      with [PostMessage Demo.frameWindow (@initMessage Demo.host e "abc")
              "https://play.venyu.ch"; OnReady]
      by (vm_compute; reflexivity).
    apply list_elem_of_here.
Defined.

(** A popup result built by the bridge passes the validator. *)
Lemma buildMessage_validates_witness :
  let built := buildMessage (Demo.env "r1" None) "venyu:auth:popup-result"
                 Samples.tokenPayload "abc" in
  validateIncomingMessage (toWire built) = Some built.
Proof.
  intros built. apply buildMessage_validates.
  - reflexivity.
  - simpl. discriminate.
  - discriminate.
  - simpl. reflexivity.
Defined.

(** The popup delivers token tok_1. *)
Lemma handlePopupMessage_relays_and_closes_witness :
  let e := Demo.env "r3" None in
  let r := @handlePopupMessage Demo.host e
             (Demo.message "venyu:auth:popup-result" "abc" (Fin 8) Samples.tokenPayload)
             Demo.withPopup in
  r.2 = [PostMessage Demo.frameWindow
           (buildMessage e "venyu:auth:popup-result" Samples.tokenPayload "abc")
           "https://play.venyu.ch";
         ClearInterval 7; WindowClose Demo.popupWindow]
  ∧ popup (state r.1) = None.
Proof.
  intros e r.
  destruct (@handlePopupMessage_relays_and_closes Demo.host e
              (Demo.message "venyu:auth:popup-result" "abc" (Fin 8) Samples.tokenPayload)
              Demo.withPopup "abc" Demo.frameWindow)
    as (H1 & H2 & _).
  - apply reachable_withPopup.
  - vm_compute. reflexivity.
  - vm_compute. reflexivity.
  - vm_compute. reflexivity.
  - split; [|exact H2]. unfold r. rewrite H1. vm_compute. reflexivity.
Defined.

(** The first popup, granted by the browser. *)
Lemma openAuthPopup_replaces_popup_witness :
  let r := @openAuthPopup Demo.host (Demo.env "r1" (Some Demo.popupWindow)) Demo.shaken in
  popup (state r.1) = Some Demo.popupWindow
  ∧ timers r.1 = [(7%nat, Demo.popupWindow)].
Proof.
  intros r.
  destruct (@openAuthPopup_replaces_popup Demo.host
              (Demo.env "r1" (Some Demo.popupWindow)) Demo.shaken
              Demo.popupWindow "https://play.venyu.ch")
    as (_ & H1 & _ & H2 & _).
  - apply reachable_shaken.
  - vm_compute. reflexivity.
  - vm_compute. reflexivity.
  - reflexivity.
  - split; assumption.
Defined.

(** The user closes the popup; the next tick releases it. *)
Lemma poll_releases_closed_popup_witness :
  let r := Demo.exec [UserCloses Demo.popupWindow; PollTick 7] Demo.withPopup in
  r.2 = [ClearInterval 7] ∧ popup (state r.1) = None ∧ timers r.1 = [].
Proof.
  intros r.
  destruct (@poll_releases_closed_popup Demo.host Demo.withPopup 7%nat
              Demo.popupWindow)
    as (_ & H1 & H2 & _ & H3 & _).
  - apply reachable_withPopup.
  - vm_compute. reflexivity.
  - vm_compute. reflexivity.
  - repeat split; assumption.
Defined.

(** A booking is reported to onBooked. *)
Lemma handleMessage_notifications_witness :
  Demo.handle (Demo.env "r2" None) (Samples.booked "abc") Demo.shaken
    = (Demo.shaken, [OnBooked "b1" "confirmed"]).
Proof.
  destruct (@handleMessage_notifications Demo.host (Demo.env "r2" None)
              (Samples.booked "abc")
              (Demo.message "venyu:booked" "abc" (Fin 6) Samples.bookedPayload)
              Demo.shaken)
    as (H & _).
  - vm_compute. reflexivity.
  - vm_compute. reflexivity.
  - vm_compute. reflexivity.
  - vm_compute. reflexivity.
  - vm_compute. reflexivity.
  - split; vm_compute; reflexivity.
  - unfold Demo.handle. rewrite H by reflexivity. vm_compute. reflexivity.
Defined.

(** A message of a type from a later protocol revision. *)
Lemma handleMessage_unknown_type_witness :
  Demo.handle (Demo.env "r2" None) (Samples.future "abc") Demo.shaken
    = (Demo.shaken, []).
Proof.
  apply (@handleMessage_unknown_type Demo.host (Demo.env "r2" None)
           (Samples.future "abc")
           (Demo.message "venyu:future:thing" "abc" (Fin 6) ∅)).
  - vm_compute. reflexivity.
  - vm_compute. reflexivity.
  - simpl. discriminate.
  - unfold known_types. simpl. intros H.
    repeat (apply elem_of_cons in H as [H|H]; [discriminate|]).
    by apply elem_of_nil in H.
Defined.


(** After the handshake and one granted popup, that popup is the tracked
    one. *)
Lemma one_popup_at_a_time_witness :
  let r := Demo.exec Samples.handshakeThenPopup Demo.fresh in
  popup (state r.1) = Some Demo.popupWindow ∨ closed r.1 Demo.popupWindow = true.
Proof.
  apply (@one_popup_at_a_time Demo.host Samples.handshakeThenPopup
           (Some Demo.frameWindow) (CssInitial "600px") ∅ Demo.popupWindow).
  replace (opened _) with [Demo.popupWindow] by (vm_compute; reflexivity).
  apply list_elem_of_here.
Defined.

(** The request id of a browser without crypto.randomUUID. *)
Lemma generateRequestId_fallback_is_uuid_v4_witness :
  generateRequestId Samples.oldBrowser = "12345678-9abc-4ef0-8123-456789abcdef"
  ∧ is_uuid_v4 (generateRequestId Samples.oldBrowser) = true.
Proof.
  split; [vm_compute; reflexivity|].
  apply generateRequestId_fallback_is_uuid_v4.
  - reflexivity.
  - split; [reflexivity|]. unfold Samples.oldBrowser, Samples.bytes. simpl.
    repeat constructor; lia.
Defined.

(** Two arrays that differ only in overwritten bits give the same id. *)
Lemma uuidFromBytes_injective_witness :
  stampVersion Samples.bytes = stampVersion Samples.bytes'.
Proof.
  apply (uuidFromBytes_injective Samples.bytes Samples.bytes').
  - split; [reflexivity|]. unfold Samples.bytes. repeat constructor; lia.
  - split; [reflexivity|]. unfold Samples.bytes'. repeat constructor; lia.
  - vm_compute. reflexivity.
Defined.

(** A configuration with an unknown mode and a play URL ending in slashes. *)
Lemma validateConfig_accepts_witness :
  v_mode Samples.validated = "full" ∨ v_mode Samples.validated = "calendar".
Proof.
  destruct (@validateConfig_accepts Samples.page Samples.embedConfig Samples.validated)
    as (_ & _ & _ & _ & H & _).
  - vm_compute. reflexivity.
  - exact H.
Defined.

(** An empty orgSlug is reported although facilitySlug is wrong too. *)
Lemma validateConfig_first_failure_witness :
  @validateConfig Samples.page Samples.noOrgSlug = inl (ThrownError KError ERR_ORG_SLUG).
Proof.
  destruct (@validateConfig_first_failure Samples.page Samples.noOrgSlug 1%nat)
    as (_ & H & _).
  - vm_compute. reflexivity.
  - apply H.
    + vm_compute. discriminate.
    + vm_compute. reflexivity.
Defined.

(** The network is down. *)
Lemma initEmbedSession_errors_tagged_witness :
  ∃ kind message,
    ThrownError KError "[VenyuEmbed] Failed to initialize embed session: Failed to fetch"
      = ThrownError kind message
    ∧ String.prefix "[VenyuEmbed]" message = true.
Proof.
  apply (@initEmbedSession_errors_tagged Samples.page Samples.offline).
  vm_compute. reflexivity.
Defined.


(** A resize to 349.5 pixels. *)
Lemma handleMessage_resize_witness :
  styleHeight (Demo.handle (Demo.env "r2" None)
                 (Demo.resize "abc" (JNum (Fin (699 # 2)))) Demo.shaken).1
    = CssPx (Fin 350).
Proof.
  destruct (@handleMessage_resize Demo.host (Demo.env "r2" None)
              (Demo.resize "abc" (JNum (Fin (699 # 2))))
              (Demo.message "venyu:resize" "abc" (Fin 6)
                 (Samples.resizePayload (JNum (Fin (699 # 2)))))
              Demo.shaken)
    as (_ & _ & _ & H & _).
  - vm_compute. reflexivity.
  - vm_compute. reflexivity.
  - vm_compute. reflexivity.
  - vm_compute. reflexivity.
  - vm_compute. reflexivity.
  - split; vm_compute; reflexivity.
  - reflexivity.
  - unfold Demo.handle. rewrite (H (699 # 2)).
    + reflexivity.
    + vm_compute. reflexivity.
    + vm_compute. discriminate.
Defined.

(** The first popup request, refused. *)
Lemma blocked_popup_without_predecessor_witness :
  let r := Demo.handle (Demo.env "r2" None) (Demo.openPopup "abc") Demo.shaken in
  popup (state r.1) = None ∧ count is_OnError r.2 = 1%nat.
Proof.
  intros r.
  destruct (@blocked_popup_without_predecessor Demo.host (Demo.env "r2" None)
              (Demo.openPopup "abc")
              (Demo.message "venyu:auth:open-popup" "abc" (Fin 6) ∅)
              Demo.shaken Demo.frameWindow "https://play.venyu.ch")
    as (H1 & H2 & _).
  - apply reachable_shaken.
  - vm_compute. reflexivity.
  - vm_compute. reflexivity.
  - vm_compute. reflexivity.
  - vm_compute. reflexivity.
  - split; vm_compute; reflexivity.
  - reflexivity.
  - vm_compute. reflexivity.
  - vm_compute. reflexivity.
  - vm_compute. reflexivity.
  - reflexivity.
  - split; [exact H2|]. unfold r, Demo.handle. rewrite H1. vm_compute. reflexivity.
Defined.

(** After the handshake the promise is fulfilled for good. *)
Lemma readiness_promise_lifecycle_witness :
  readyPromise Demo.shaken = Fulfilled
  ∧ readyPromise (Demo.exec [CallDestroy] Demo.shaken).1 = readyPromise Demo.shaken.
Proof.
  destruct (@readiness_promise_lifecycle Demo.host Demo.shaken reachable_shaken)
    as (_ & _ & _ & H).
  split; [vm_compute; reflexivity|].
  apply H. vm_compute. discriminate.
Defined.
